(** * outline-mcp: the tool generator (scripts/generate-tools.mjs)

    A shallow embedding of the schema compiler that turns an OpenAPI
    document into MCP tool definitions, and the properties of it that the
    design document states.

    Conventions of the embedding.
    - A JavaScript value is a [value]: the JSON values a YAML parse
      produces, [Undefined], and the objects of the runtime that a pointer
      can lead to from a parsed document (the two prototypes and their
      built-in functions).  Numbers are the integers.
    - An object is its list of own entries in insertion order; the keys
      of a parsed document are unique and none is [__proto__].
      (JavaScript lists keys that look like array indices first; no claim
      depends on it.)
    - The members an object or an array inherits from its prototype are
      modelled where the program can reach them: in [resolveRef], which
      tests [part in current] and reads [current[part]] for a name taken
      from the document, and in the [in] of [hasPagination].  Everywhere
      else the program reads members of fixed names ([$ref], [type],
      [properties], ...), none of which is the name of an inherited
      member, or the names [Object.entries] lists, which are own.
    - A thrown exception is the [Throw] result; the generator has no
      [catch] but the one around [main].
    - [seenRefs], a [Set] of reference strings that the code mutates in
      place, is passed in and handed back by every function that mutates
      it; [new Set(seenRefs)] is the place where a caller stops threading
      it. *)

From Stdlib Require Import String Ascii List ZArith Bool Lia.
From stdpp Require Import base gmap strings list pretty.

Import ListNotations.
#[local] Set Warnings "-register-all".
Local Open Scope string_scope.
Local Open Scope list_scope.

(** ** JavaScript values *)

(** The two objects of the runtime behind every parsed value:
    [Object.prototype], which every object inherits from, and
    [Array.prototype], which every array inherits from and which itself
    inherits from [Object.prototype]. *)
Inductive prototype : Type :=
| ObjectPrototype
| ArrayPrototype.

Inductive value : Type :=
| Undefined
| Null
| Bool (b : bool)
| Num (n : Z)
| Str (s : string)
| Arr (items : list value)
| Obj (fields : list (string * value))
| Prototype (p : prototype)                   (* the prototype object itself *)
| Builtin (home : prototype) (name : string). (* the function that the member
                                                 [name] of [home] holds *)

(** [!!v]: the falsy values are undefined, null, false, 0 and the empty
    string. *)
Definition truthy (v : value) : bool :=
  match v with
  | Undefined | Null => false
  | Bool b => b
  | Num n => negb (n =? 0)%Z
  | Str s => negb (s =? EmptyString)
  | Arr _ | Obj _ | Prototype _ | Builtin _ _ => true
  end.

(** [v ?? d] *)
Definition nullish (v : value) : bool :=
  match v with Undefined | Null => true | _ => false end.

Definition orElse (v d : value) : value := if nullish v then d else v.

(** [Array.isArray(v) && v.length > 0] *)
Definition nonEmptyArray (v : value) : bool :=
  match v with Arr (_ :: _) => true | _ => false end.

(** [a === b] when one side is a primitive; two objects parsed from
    different places are never identical. *)
Definition strictEq (a b : value) : bool :=
  match a, b with
  | Undefined, Undefined | Null, Null => true
  | Bool x, Bool y => Bool.eqb x y
  | Num x, Num y => (x =? y)%Z
  | Str x, Str y => (x =? y)
  | _, _ => false
  end.

(** *** Own entries *)

Fixpoint assoc {A : Type} (k : string) (l : list (string * A)) : option A :=
  match l with
  | [] => None
  | (k', v) :: r => if k' =? k then Some v else assoc k r
  end.

Definition hasKey {A : Type} (k : string) (l : list (string * A)) : bool :=
  match assoc k l with Some _ => true | None => false end.

(** [o[k] = v] on a plain object: an existing key keeps its place. *)
Fixpoint objSet {A : Type} (k : string) (v : A) (l : list (string * A))
  : list (string * A) :=
  match l with
  | [] => [(k, v)]
  | (k', v') :: r => if k' =? k then (k', v) :: r else (k', v') :: objSet k v r
  end.

(** A canonical array index: ["0"], or digits without a leading zero. *)
Definition isDigit (c : ascii) : bool :=
  (48 <=? nat_of_ascii c)%nat && (nat_of_ascii c <=? 57)%nat.

Fixpoint digitsValue (acc : nat) (s : string) : option nat :=
  match s with
  | EmptyString => Some acc
  | String c r =>
      if isDigit c then digitsValue (10 * acc + (nat_of_ascii c - 48)) r
      else None
  end.

Definition indexOfString (s : string) : option nat :=
  match s with
  | EmptyString => None
  | String "0" EmptyString => Some 0%nat
  | String "0" _ => None
  | _ => digitsValue 0 s
  end.

Fixpoint chars (s : string) : list string :=
  match s with
  | EmptyString => []
  | String c r => String c EmptyString :: chars r
  end.

Definition indexed {A : Type} (l : list A) : list (string * A) :=
  imap (fun i x => (pretty i, x)) l.

(** [Object.entries(v)], which is also what [Object.assign] copies from
    [v]: the entries of an object, the indexed elements of an array, the
    indexed characters of a string, nothing for the other primitives. *)
Definition ownEntries (v : value) : list (string * value) :=
  match v with
  | Obj fs => fs
  | Arr l => indexed l
  | Str s => indexed (map Str (chars s))
  | _ => []
  end.

(** [v[k]] for a [v] that is neither null nor undefined, where [k] is not
    the name of a member that [v] can only inherit; [member] below finds
    those as well. *)
Definition get (v : value) (k : string) : value :=
  match v with
  | Obj fs => match assoc k fs with Some x => x | None => Undefined end
  | Arr l =>
      match indexOfString k with
      | Some i => nth i l Undefined
      | None => if k =? "length" then Num (Z.of_nat (length l)) else Undefined
      end
  | Str s =>
      match indexOfString k with
      | Some i => nth i (map Str (chars s)) Undefined
      | None =>
          if k =? "length" then Num (Z.of_nat (String.length s)) else Undefined
      end
  | _ => Undefined
  end.

(** [v?.[k]] *)
Definition getOpt (v : value) (k : string) : value :=
  if nullish v then Undefined else get v k.

(** [Object.hasOwn(v, k)] for an object or an array of the document. *)
Definition hasOwn (v : value) (k : string) : bool :=
  match v with
  | Obj fs => hasKey k fs
  | Arr l =>
      match indexOfString k with
      | Some i => (i <? length l)%nat
      | None => k =? "length"
      end
  | _ => false
  end.

(** *** Inherited members

    The functions of [Object.prototype] and of [Array.prototype], by the
    names of the members that hold them (ECMAScript 2023, with the
    members of its Annex B that every runtime has). *)
Definition objectFunctions : list string :=
  ["constructor"; "hasOwnProperty"; "isPrototypeOf"; "propertyIsEnumerable";
   "toLocaleString"; "toString"; "valueOf";
   "__defineGetter__"; "__defineSetter__";
   "__lookupGetter__"; "__lookupSetter__"].

Definition arrayFunctions : list string :=
  ["constructor"; "at"; "concat"; "copyWithin"; "entries"; "every"; "fill";
   "filter"; "find"; "findIndex"; "findLast"; "findLastIndex"; "flat";
   "flatMap"; "forEach"; "includes"; "indexOf"; "join"; "keys";
   "lastIndexOf"; "map"; "pop"; "push"; "reduce"; "reduceRight"; "reverse";
   "shift"; "slice"; "some"; "sort"; "splice"; "toLocaleString";
   "toReversed"; "toSorted"; "toSpliced"; "toString"; "unshift"; "values";
   "with"].

(** The own members of a prototype but for [__proto__]: its functions,
    and the [length] of [Array.prototype], which is an array of no
    elements. *)
Definition prototypeOwn (p : prototype) (k : string) : option value :=
  match p with
  | ObjectPrototype =>
      if existsb (String.eqb k) objectFunctions
      then Some (Builtin ObjectPrototype k) else None
  | ArrayPrototype =>
      if existsb (String.eqb k) arrayFunctions
      then Some (Builtin ArrayPrototype k)
      else if k =? "length" then Some (Num 0)
      else None
  end.

(** [__proto__] is an accessor of [Object.prototype]: it gives the
    prototype of the object it is read from. *)
Definition accessor (k : string) (proto : value) : option value :=
  if k =? "__proto__" then Some proto else None.

Definition otherwise {A : Type} (a b : option A) : option A :=
  match a with Some _ => a | None => b end.

(** What [v[k]] finds when [k] is no own member of a parsed [v]: the
    member of the nearest prototype that has one.  A prototype is asked
    for its own members first. *)
Definition inherited (v : value) (k : string) : option value :=
  match v with
  | Obj _ =>
      otherwise (accessor k (Prototype ObjectPrototype))
        (prototypeOwn ObjectPrototype k)
  | Arr _ =>
      otherwise (accessor k (Prototype ArrayPrototype))
        (otherwise (prototypeOwn ArrayPrototype k)
           (prototypeOwn ObjectPrototype k))
  | Prototype ObjectPrototype =>
      otherwise (accessor k Null) (prototypeOwn ObjectPrototype k)
  | Prototype ArrayPrototype =>
      otherwise (accessor k (Prototype ObjectPrototype))
        (otherwise (prototypeOwn ArrayPrototype k)
           (prototypeOwn ObjectPrototype k))
  | _ => None
  end.

(** [k in v] for a [v] with [typeof v === "object"] that is not null.
    (The members of a built-in function are not modelled: the program
    never asks one for a member it has.) *)
Definition isIn (k : string) (v : value) : bool :=
  hasOwn v k || match inherited v k with Some _ => true | None => false end.

(** [v[k]] where [k in v]: the own member, else the inherited one. *)
Definition member (v : value) (k : string) : value :=
  if hasOwn v k then get v k
  else match inherited v k with Some m => m | None => Undefined end.

(** What [for (const x of v)], [new Set(v)] and spread iterate over; the
    values that are not iterable give [None]. *)
Definition iterate (v : value) : option (list value) :=
  match v with
  | Arr l => Some l
  | Str s => Some (map Str (chars s))
  | _ => None
  end.

(** ** Exceptions *)

Inductive error : Type :=
| Unsupported (ref : string)     (* Error(`Unsupported $ref: ${ref}`) *)
| Unresolvable (ref : string)    (* Error(`Unresolvable $ref: ${ref}`) *)
| TypeError                      (* raised by the runtime *)
| FuelExhausted.                 (* the model ran out of fuel; never happens,
                                    see [derefSchema_total] *)

Inductive result (A : Type) : Type :=
| Ok (a : A)
| Throw (e : error).
Arguments Ok {A} a.
Arguments Throw {A} e.

Definition bind {A B : Type} (m : result A) (k : A -> result B) : result B :=
  match m with
  | Ok a => k a
  | Throw e => Throw e
  end.

Notation "'let*' x ':=' m 'in' k" := (bind m (fun x => k))
  (at level 10, x pattern, m at level 100, k at level 200).

Fixpoint mapResult {A B : Type} (f : A -> result B) (l : list A) : result (list B) :=
  match l with
  | [] => Ok []
  | x :: r =>
      let* y := f x in
      let* ys := mapResult f r in
      Ok (y :: ys)
  end.

(** ** [toSnakeCase] *)

Definition isLower (c : ascii) : bool :=
  (97 <=? nat_of_ascii c)%nat && (nat_of_ascii c <=? 122)%nat.
Definition isUpper (c : ascii) : bool :=
  (65 <=? nat_of_ascii c)%nat && (nat_of_ascii c <=? 90)%nat.
Definition isUnderscore (c : ascii) : bool := (c =? "_")%char.

Definition toLower (c : ascii) : ascii :=
  if isUpper c then ascii_of_nat (nat_of_ascii c + 32) else c.

Fixpoint mapString (f : ascii -> ascii) (s : string) : string :=
  match s with
  | EmptyString => EmptyString
  | String c r => String (f c) (mapString f r)
  end.

(** [.replace(/^\//, empty)]: one leading slash is taken off. *)
Definition stripLeadingSlash (s : string) : string :=
  match s with
  | String "/" r => r
  | _ => s
  end.

(** [.replace(/\./g, "_")] *)
Definition replaceDots : string -> string :=
  mapString (fun c => if (c =? ".")%char then "_"%char else c).

(** [.replace(/([a-z0-9])([A-Z])/g, "$1_$2")].  The second character of a
    match is upper case, so it never starts another match: the matches are
    all the positions where a lower-case letter or a digit is followed by
    an upper-case letter. *)
Fixpoint splitCamel (s : string) : string :=
  match s with
  | EmptyString => EmptyString
  | String a r =>
      match r with
      | String b _ =>
          if (isLower a || isDigit a) && isUpper b
          then String a (String "_" (splitCamel r))
          else String a (splitCamel r)
      | EmptyString => String a EmptyString
      end
  end.

(** [.replace(/[^a-zA-Z0-9_]/g, "_")] *)
Definition isWord (c : ascii) : bool :=
  isLower c || isUpper c || isDigit c || isUnderscore c.

Definition replaceNonWord : string -> string :=
  mapString (fun c => if isWord c then c else "_"%char).

(** [.replace(/__+/g, "_")] *)
Fixpoint collapseUnderscores (s : string) : string :=
  match s with
  | EmptyString => EmptyString
  | String a r =>
      match r with
      | String b _ =>
          if isUnderscore a && isUnderscore b
          then collapseUnderscores r
          else String a (collapseUnderscores r)
      | EmptyString => String a EmptyString
      end
  end.

(** [.toLowerCase()], on a string that [replaceNonWord] left in ASCII. *)
Definition toLowerCase : string -> string := mapString toLower.

Definition toSnakeCase (value : string) : string :=
  toLowerCase
    (collapseUnderscores
       (replaceNonWord (splitCamel (replaceDots (stripLeadingSlash value))))).

(** ** [resolveRef] *)

Fixpoint splitOn (sep : ascii) (s : string) : list string :=
  match s with
  | EmptyString => [EmptyString]
  | String c r =>
      if (c =? sep)%char then EmptyString :: splitOn sep r
      else match splitOn sep r with
           | h :: t => String c h :: t
           | [] => [String c EmptyString]
           end
  end.

(** [ref.startsWith("#/")] and [ref.slice(2)] *)
Definition startsWithHashSlash (ref : string) : bool :=
  match ref with
  | String "#" (String "/" _) => true
  | _ => false
  end.

Definition slice2 (ref : string) : string :=
  match ref with
  | String _ (String _ r) => r
  | _ => EmptyString
  end.

(** [typeof v === "object"] *)
Definition typeofObject (v : value) : bool :=
  match v with Null | Arr _ | Obj _ | Prototype _ => true | _ => false end.

(** The loop of [resolveRef] over the segments of the pointer. *)
Fixpoint walkParts (ref : string) (current : value) (parts : list string)
  : result value :=
  match parts with
  | [] => Ok current
  | part :: rest =>
      if truthy current && typeofObject current && isIn part current
      then walkParts ref (member current part) rest
      else Throw (Unresolvable ref)
  end.

(** A [ref] that is not a string has no [startsWith]. *)
Definition resolveRef (spec ref : value) : result value :=
  match ref with
  | Str ref =>
      if negb (startsWithHashSlash ref) then Throw (Unsupported ref)
      else walkParts ref spec (splitOn "/" (slice2 ref))
  | _ => Throw TypeError
  end.

(** ** [derefSchema] and [mergeAllOfSchemas] *)

Definition MAX_SCHEMA_DEPTH : nat := 8.

(** [Object.assign(target, source)] *)
Definition objectAssign (target : list (string * value)) (source : value)
  : list (string * value) :=
  fold_left (fun t kv => objSet (fst kv) (snd kv) t) (ownEntries source) target.

Section MergeAllOf.
(** [derefSchema] with [spec] fixed; the two functions call each other. *)
Variable deref : value -> gset string -> nat -> result (value * gset string).

(** The [for] loop of [mergeAllOfSchemas]; [seenRefs] is the one set,
    handed from branch to branch. *)
Fixpoint mergeLoop (schemas : list value)
    (mergedProperties : list (string * value)) (mergedRequired : list value)
    (seenRefs : gset string) (depth : nat)
  : result (list (string * value) * list value * gset string) :=
  match schemas with
  | [] => Ok (mergedProperties, mergedRequired, seenRefs)
  | schema :: rest =>
      let* r := deref schema seenRefs (depth + 1) in
      let resolved := fst r in
      let mergedProperties :=
        if truthy (getOpt resolved "properties")
        then objectAssign mergedProperties (get resolved "properties")
        else mergedProperties in
      let mergedRequired :=
        match getOpt resolved "required" with
        | Arr l => mergedRequired ++ l
        | _ => mergedRequired
        end in
      mergeLoop rest mergedProperties mergedRequired (snd r) depth
  end.

Definition mergeAllOfSchemas (schemas : value) (seenRefs : gset string)
    (depth : nat) : result (value * gset string) :=
  match iterate schemas with
  | None => Throw TypeError
  | Some branches =>
      let* m := mergeLoop branches [] [] seenRefs depth in
      let mergedProperties := fst (fst m) in
      let mergedRequired := snd (fst m) in
      Ok (Obj [("type", Str "object");
               ("properties", Obj mergedProperties);
               ("required",
                 if (0 <? length mergedRequired)%nat
                 then Arr mergedRequired else Undefined)],
          snd m)
  end.
End MergeAllOf.

(** The body of [derefSchema]; [self] stands for the recursive calls. *)
Definition derefSchema_body
    (self : value -> gset string -> nat -> result (value * gset string))
    (spec schema : value) (seenRefs : gset string) (depth : nat)
  : result (value * gset string) :=
  if negb (truthy schema) then Ok (Obj [], seenRefs)
  else if (MAX_SCHEMA_DEPTH <? depth)%nat then Ok (Obj [], seenRefs)
  else if truthy (get schema "$ref") then
    match get schema "$ref" with
    | Str ref =>
        if bool_decide (ref ∈ seenRefs) then Ok (Obj [], seenRefs)
        else
          let seenRefs := seenRefs ∪ {[ref]} in
          let* target := resolveRef spec (Str ref) in
          self target seenRefs (depth + 1)
    | ref =>
        (* a truthy [$ref] that is no string: it is not in the set, and
           [resolveRef] throws at [ref.startsWith] *)
        let* target := resolveRef spec ref in
        self target seenRefs (depth + 1)
    end
  else if truthy (get schema "allOf") then
    mergeAllOfSchemas self (get schema "allOf") seenRefs depth
  else Ok (schema, seenRefs).

(** The recursion of [derefSchema] is on [depth], which every call
    increases and [MAX_SCHEMA_DEPTH] bounds; [fuel] makes that structural. *)
Fixpoint derefSchema_fuel (fuel : nat) (spec schema : value)
    (seenRefs : gset string) (depth : nat) : result (value * gset string) :=
  match fuel with
  | O => Throw FuelExhausted
  | S fuel =>
      derefSchema_body (derefSchema_fuel fuel spec) spec schema seenRefs depth
  end.

(** Enough fuel for a call at [depth]: see [derefSchema_fuel_enough]. *)
Definition fuelAt (depth : nat) : nat := S (S MAX_SCHEMA_DEPTH - depth).

Definition derefSchema (spec schema : value) (seenRefs : gset string)
    (depth : nat) : result (value * gset string) :=
  derefSchema_fuel (fuelAt depth) spec schema seenRefs depth.

(** ** Text: [JSON.stringify] and [String(v)] *)

Definition hexDigit (n : nat) : ascii :=
  if (n <? 10)%nat then ascii_of_nat (48 + n) else ascii_of_nat (87 + n).

Definition escapeChar (c : ascii) : string :=
  let n := nat_of_ascii c in
  if (n =? 34)%nat then "\" +:+ String c EmptyString
  else if (n =? 92)%nat then "\\"
  else if (n =? 8)%nat then "\b"
  else if (n =? 12)%nat then "\f"
  else if (n =? 10)%nat then "\n"
  else if (n =? 13)%nat then "\r"
  else if (n =? 9)%nat then "\t"
  else if (n <? 32)%nat
       then "\u00" +:+ String (hexDigit (n / 16)) (String (hexDigit (n mod 16)) EmptyString)
  else String c EmptyString.

Fixpoint escapeString (s : string) : string :=
  match s with
  | EmptyString => EmptyString
  | String c r => escapeChar c +:+ escapeString r
  end.

Definition doubleQuote : string := String (ascii_of_nat 34) EmptyString.

(** [JSON.stringify] of a string *)
Definition quote (s : string) : string :=
  doubleQuote +:+ escapeString s +:+ doubleQuote.

(** [JSON.stringify(v)]; [None] is the result [undefined]. *)
Fixpoint jsonStringify (v : value) : option string :=
  match v with
  | Undefined => None
  | Null => Some "null"
  | Bool b => Some (if b then "true" else "false")
  | Num n => Some (pretty n)
  | Str s => Some (quote s)
  | Arr l =>
      Some ("[" +:+ String.concat ","
              (map (fun x => match jsonStringify x with
                             | Some t => t
                             | None => "null"
                             end) l) +:+ "]")
  | Obj fs =>
      Some ("{" +:+ String.concat ","
              (flat_map (fun '(k, x) => match jsonStringify x with
                                        | Some t => [quote k +:+ ":" +:+ t]
                                        | None => []
                                        end) fs) +:+ "}")
  | Prototype ObjectPrototype => Some "{}"
  | Prototype ArrayPrototype => Some "[]"
  | Builtin _ _ => None
  end.

(** [`${JSON.stringify(v)}`] *)
Definition jsonText (v : value) : string :=
  match jsonStringify v with Some t => t | None => "undefined" end.

(** The name of a built-in function: that of the member that holds it,
    but for the two constructors. *)
Definition functionName (home : prototype) (name : string) : string :=
  if name =? "constructor" then
    match home with
    | ObjectPrototype => "Object"
    | ArrayPrototype => "Array"
    end
  else name.

(** [String(v)], as a template literal and [Array.prototype.join] apply it. *)
Fixpoint toJsString (v : value) : string :=
  match v with
  | Undefined => "undefined"
  | Null => "null"
  | Bool b => if b then "true" else "false"
  | Num n => pretty n
  | Str s => s
  | Arr l =>
      String.concat ","
        (map (fun x => match x with
                       | Undefined | Null => EmptyString
                       | _ => toJsString x
                       end) l)
  | Obj _ | Prototype ObjectPrototype => "[object Object]"
  | Prototype ArrayPrototype => EmptyString
  | Builtin home name =>
      "function " +:+ functionName home name +:+ "() { [native code] }"
  end.

(** ** Validator expressions

    [schemaToZodExpression] writes the source text of a zod validator.
    [zexpr] is the syntax tree of the texts it can write, one constructor
    per template of the source, and [render] is the text. *)

Inductive unknownKeys (A : Type) : Type :=
| Strict                   (* .strict() *)
| Passthrough              (* .passthrough() *)
| Catchall (schema : A).   (* .catchall(schema) *)
Arguments Strict {A}.
Arguments Passthrough {A}.
Arguments Catchall {A} schema.

Inductive zexpr : Type :=
| ZAny                                     (* z.any() *)
| ZString                                  (* z.string() *)
| ZNumber                                  (* z.number() *)
| ZBoolean                                 (* z.boolean() *)
| ZEnum (values : list string)             (* z.enum([...]) *)
| ZLiteral (v : value)                     (* z.literal(v) *)
| ZUnion (options : list zexpr)            (* z.union([...]) *)
| ZArray (item : zexpr)                    (* z.array(item) *)
| ZObject (shape : list (string * zexpr)) (unknown : unknownKeys zexpr)
                                           (* z.object({ ... }).strict() etc. *)
| ZOptional (inner : zexpr)                (* inner.optional() *)
| ZNullable (inner : zexpr)                (* inner.nullable() *)
| ZDescribe (inner : zexpr) (doc : string). (* inner.describe(doc) *)

Fixpoint render (e : zexpr) : string :=
  match e with
  | ZAny => "z.any()"
  | ZString => "z.string()"
  | ZNumber => "z.number()"
  | ZBoolean => "z.boolean()"
  | ZEnum values => "z.enum(" +:+ jsonText (Arr (map Str values)) +:+ ")"
  | ZLiteral v => "z.literal(" +:+ jsonText v +:+ ")"
  | ZUnion options => "z.union([" +:+ String.concat ", " (map render options) +:+ "])"
  | ZArray item => "z.array(" +:+ render item +:+ ")"
  | ZObject shape unknown =>
      "z.object({ "
        +:+ String.concat ", " (map (fun '(k, p) => quote k +:+ ": " +:+ render p) shape)
        +:+ " })"
        +:+ match unknown with
           | Strict => ".strict()"
           | Passthrough => ".passthrough()"
           | Catchall c => ".catchall(" +:+ render c +:+ ")"
           end
  | ZOptional inner => render inner +:+ ".optional()"
  | ZNullable inner => render inner +:+ ".nullable()"
  | ZDescribe inner doc => render inner +:+ ".describe(" +:+ quote doc +:+ ")"
  end.

(** ** [schemaToZodExpression] *)

Inductive mode : Type := Input | Output.

Definition literalExpression (v : value) : zexpr := ZLiteral v.

(** [new Set(resolved.required ?? [])], as the list of its members. *)
Definition requiredSet (required : value) : result (list value) :=
  match iterate (orElse required (Arr [])) with
  | Some members => Ok members
  | None => Throw TypeError
  end.

(** [required.has(key)] *)
Definition setHas (members : list value) (key : string) : bool :=
  existsb (strictEq (Str key)) members.

Definition isStr (v : value) : bool :=
  match v with Str _ => true | _ => false end.

Definition strOf (v : value) : string :=
  match v with Str s => s | _ => EmptyString end.

(** The tail of [schemaToZodExpression]: the nullable flag, then the
    description and the example. *)
Definition decorate (resolved : value) (expression : zexpr) : zexpr :=
  let expression :=
    if truthy (get resolved "nullable") then ZNullable expression
    else expression in
  let descriptionParts :=
    (if truthy (get resolved "description")
     then [toJsString (get resolved "description")] else [])
    ++ (if strictEq (get resolved "example") Undefined then []
        else ["Example: " +:+ jsonText (get resolved "example")]) in
  if (0 <? length descriptionParts)%nat
  then ZDescribe expression (String.concat " " descriptionParts)
  else expression.

(** The elements of [v] when [Array.isArray(v)]. *)
Definition arrayItems (v : value) : list value :=
  match v with Arr l => l | _ => [] end.

(** The branch of [schemaToZodExpression] for a node of type string. *)
Definition stringExpression (resolved : value) (isOutput : bool) : zexpr :=
  if nonEmptyArray (get resolved "enum") then
    let enum := arrayItems (get resolved "enum") in
    let stringValues := List.filter isStr enum in
    if isOutput then ZString
    else if (length stringValues =? length enum)%nat
    then ZEnum (map strOf stringValues)
    else
      let literals := map literalExpression enum in
      match literals with
      | [one] => one
      | _ => ZUnion literals
      end
  else ZString.

Definition isOutputMode (options : mode) : bool :=
  match options with Output => true | Input => false end.

(** [schemaType === "object" || hasProperties] *)
Definition objectBranch (resolved : value) : bool :=
  strictEq (get resolved "type") (Str "object")
  || (truthy (get resolved "properties")
      && typeofObject (get resolved "properties")).

Section Compile.
(** [schemaToZodExpression] with [spec] and [options] fixed, for the
    recursive calls. *)
Variable self : value -> nat -> gset string -> result zexpr.
Variable spec : value.
Variable options : mode.

(** The callback of [Object.entries(properties).map]; every property
    gets its own copy [new Set(seenRefs)]. *)
Definition propertyEntry (required : list value) (depth : nat)
    (seenRefs : gset string) (entry : string * value)
  : result (string * zexpr) :=
  let key := fst entry in
  let propertySchema := snd entry in
  let* propertyExpression := self propertySchema (depth + 1) seenRefs in
  Ok (key,
      if setHas required key then propertyExpression
      else if isOutputMode options
           then ZNullable (ZOptional propertyExpression)
           else ZOptional propertyExpression).

(** The object branch. *)
Definition objectExpression (resolved : value) (depth : nat)
    (seenRefs : gset string) : result zexpr :=
  let properties := orElse (get resolved "properties") (Obj []) in
  let* required := requiredSet (get resolved "required") in
  let* entries :=
    mapResult (propertyEntry required depth seenRefs)
      (ownEntries properties) in
  if isOutputMode options then Ok (ZObject entries Passthrough)
  else if truthy (get resolved "additionalProperties") then
    if strictEq (get resolved "additionalProperties") (Bool true)
    then Ok (ZObject entries Passthrough)
    else
      let* catchallExpression :=
        self (get resolved "additionalProperties") (depth + 1) seenRefs in
      Ok (ZObject entries (Catchall catchallExpression))
  else Ok (ZObject entries Strict).

(** The chain of branches on [schemaType]. *)
Definition typedExpression (resolved : value) (depth : nat)
    (seenRefs : gset string) : result zexpr :=
  let isOutput := isOutputMode options in
  let schemaType := get resolved "type" in
  if objectBranch resolved then objectExpression resolved depth seenRefs
  else if strictEq schemaType (Str "array") then
    let* itemExpression :=
      if truthy (get resolved "items")
      then self (get resolved "items") (depth + 1) seenRefs
      else Ok ZAny in
    Ok (ZArray itemExpression)
  else if strictEq schemaType (Str "string") then
    Ok (stringExpression resolved isOutput)
  else if strictEq schemaType (Str "integer")
          || strictEq schemaType (Str "number") then Ok ZNumber
  else if strictEq schemaType (Str "boolean") then Ok ZBoolean
  else if nonEmptyArray (get resolved "enum") then
    Ok (if isOutput then ZAny
        else ZUnion (map literalExpression (arrayItems (get resolved "enum"))))
  else Ok ZAny.

(** The body of [schemaToZodExpression].  [derefSchema] adds to the
    caller's [seenRefs]; the set it hands back is the one the branches
    copy. *)
Definition schemaToZodExpression_body (schema : value) (depth : nat)
    (seenRefs : gset string) : result zexpr :=
  let* r := derefSchema spec schema seenRefs depth in
  let resolved := fst r in
  let seenRefs := snd r in
  if negb (truthy resolved) || (MAX_SCHEMA_DEPTH <? depth)%nat then Ok ZAny
  else if truthy (get resolved "oneOf") || truthy (get resolved "anyOf")
  then Ok ZAny
  else
    let* expression := typedExpression resolved depth seenRefs in
    Ok (decorate resolved expression).
End Compile.

(** As for [derefSchema], the recursion is on [depth]. *)
Fixpoint schemaToZodExpression_fuel (fuel : nat) (spec schema : value)
    (options : mode) (depth : nat) (seenRefs : gset string) : result zexpr :=
  match fuel with
  | O => Throw FuelExhausted
  | S fuel =>
      schemaToZodExpression_body
        (fun s d seen => schemaToZodExpression_fuel fuel spec s options d seen)
        spec options schema depth seenRefs
  end.

(** [depth = 0] and [seenRefs = new Set()] are the defaults. *)
Definition schemaToZodExpression (spec schema : value) (options : mode)
    (depth : nat) (seenRefs : gset string) : result zexpr :=
  schemaToZodExpression_fuel (fuelAt depth) spec schema options depth seenRefs.

(** ** What a validator accepts

    The generated module is loaded with zod, and the dispatcher calls
    [safeParse] on the validators.  [accepts e v] is zod's answer for the
    validator written as [e] on the parsed JSON value [v] ([Undefined] for
    an absent member of an object):
    - [z.any()] accepts everything, an absent member too;
    - an object validator accepts plain objects only; every key of the
      shape is checked against the member (or [Undefined]); a key outside
      the shape is an error under [.strict()], is kept under
      [.passthrough()], and is checked against [c] under [.catchall(c)];
    - [.optional()] adds [undefined], [.nullable()] adds [null],
      [.describe()] changes nothing;
    - [z.literal(l)] compares with [===]. *)
Fixpoint accepts (e : zexpr) (v : value) : bool :=
  match e with
  | ZAny => true
  | ZString => isStr v
  | ZNumber => match v with Num _ => true | _ => false end
  | ZBoolean => match v with Bool _ => true | _ => false end
  | ZEnum values =>
      match v with
      | Str s => existsb (String.eqb s) values
      | _ => false
      end
  | ZLiteral l => strictEq v l
  | ZUnion options => existsb (fun o => accepts o v) options
  | ZArray item =>
      match v with
      | Arr l => forallb (accepts item) l
      | _ => false
      end
  | ZObject shape unknown =>
      match v with
      | Obj fs =>
          forallb (fun '(k, p) => accepts p (get v k)) shape
          && forallb (fun '(k, x) =>
                        hasKey k shape
                        || match unknown with
                           | Strict => false
                           | Passthrough => true
                           | Catchall c => accepts c x
                           end) fs
      | _ => false
      end
  | ZOptional inner => strictEq v Undefined || accepts inner v
  | ZNullable inner => strictEq v Null || accepts inner v
  | ZDescribe inner _ => accepts inner v
  end.

(** ** The tool synthesizer *)

Record annotationSet : Type := {
  readOnlyHint : bool;
  destructiveHint : bool;
  idempotentHint : bool;
  openWorldHint : bool
}.

Record tool : Type := {
  name : string;
  title : value;
  description : value;
  methodName : string;
  inputSchema : zexpr;
  outputSchema : option zexpr;
  annotations : annotationSet
}.

(** [operation?.requestBody?.content?.["application/json"]?.schema] *)
Definition jsonBodySchema (holder : value) : value :=
  getOpt (getOpt (getOpt holder "content") "application/json") "schema".

Definition isObjectShaped (resolved : value) : bool :=
  strictEq (getOpt resolved "type") (Str "object")
  || (truthy (getOpt resolved "properties")
      && typeofObject (get resolved "properties")).

Definition buildInputSchemaExpression (spec operation : value) : result zexpr :=
  let requestSchema := jsonBodySchema (getOpt operation "requestBody") in
  if negb (truthy requestSchema) then Ok (ZObject [] Strict)
  else
    let* r := derefSchema spec requestSchema ∅ 0 in
    let resolved := fst r in
    if isObjectShaped resolved
    then schemaToZodExpression spec resolved Input 0 ∅
    else
      let* payloadExpression := schemaToZodExpression spec resolved Input 0 ∅ in
      Ok (ZObject [("payload", payloadExpression)] Strict).

Definition buildOutputSchemaExpression (spec operation : value)
  : result (option zexpr) :=
  let responses := orElse (getOpt operation "responses") (Obj []) in
  let responseSchema :=
    if truthy (jsonBodySchema (getOpt responses "200"))
    then jsonBodySchema (getOpt responses "200")
    else jsonBodySchema (getOpt responses "201") in
  if negb (truthy responseSchema) then Ok None
  else
    let* r := derefSchema spec responseSchema ∅ 0 in
    if negb (isObjectShaped (fst r)) then Ok None
    else
      let* e := schemaToZodExpression spec responseSchema Output 0 ∅ in
      Ok (Some e).

(** [k in v]: a primitive on the right is a TypeError. *)
Definition inOperator (k : string) (v : value) : result bool :=
  match v with
  | Obj _ | Arr _ | Prototype _ | Builtin _ _ => Ok (isIn k v)
  | _ => Throw TypeError
  end.

Definition hasPagination (spec operation : value) : result bool :=
  let requestSchema := jsonBodySchema (getOpt operation "requestBody") in
  if negb (truthy requestSchema) then Ok false
  else
    let* r := derefSchema spec requestSchema ∅ 0 in
    let properties := orElse (getOpt (fst r) "properties") (Obj []) in
    let* hasLimit := inOperator "limit" properties in
    if hasLimit then Ok true else inOperator "offset" properties.

(** [READ_ONLY_PATTERN] and [DESTRUCTIVE_PATTERN]: an alternation of
    literal words, case-insensitive, found anywhere in the subject. *)
Definition READ_ONLY_PATTERN : list string :=
  ["list"; "info"; "search"; "config"; "redirect"; "export"; "history";
   "diff"; "view"; "views"; "count"; "counts"; "stats"; "ping"; "check"].

Definition DESTRUCTIVE_PATTERN : list string := ["delete"; "remove"; "destroy"].

Fixpoint isPrefix (p s : string) : bool :=
  match p, s with
  | EmptyString, _ => true
  | String a p', String b s' => (a =? b)%char && isPrefix p' s'
  | String _ _, EmptyString => false
  end.

Fixpoint includes (word s : string) : bool :=
  isPrefix word s
  || match s with
     | EmptyString => false
     | String _ r => includes word r
     end.

(** [pattern.test(subject)] *)
Definition test (pattern : list string) (subject : string) : bool :=
  existsb (fun word => includes word (toLowerCase subject)) pattern.

Definition newline : string := String (ascii_of_nat 10) EmptyString.

Definition paginationNote : string :=
  "Pagination: use limit and offset to page results.".

(** The identifier a tool is named after: [operation.operationId ??
    methodName]. *)
Definition operationIdOf (pathKey : string) (operation : value) : value :=
  orElse (get operation "operationId") (Str (stripLeadingSlash pathKey)).

(** The body of the inner loop of [generateTools], for an [operation]
    that is there.  [toSnakeCase] calls [replace] on its argument, which
    only a string has. *)
Definition generateTool (spec : value) (pathKey : string) (operation : value)
  : result tool :=
  let methodName := stripLeadingSlash pathKey in
  match operationIdOf pathKey operation with
  | Str operationId =>
      let toolName := "outline_" +:+ toSnakeCase operationId in
      let title := orElse (get operation "summary") (Str toolName) in
      let description :=
        orElse (get operation "description")
          (orElse (get operation "summary") (Str EmptyString)) in
      let* inputSchema := buildInputSchemaExpression spec operation in
      let* outputSchema := buildOutputSchemaExpression spec operation in
      let readOnlyHint := test READ_ONLY_PATTERN operationId in
      let destructiveHint := test DESTRUCTIVE_PATTERN operationId in
      let* paginated := hasPagination spec operation in
      let description :=
        if paginated then
          if truthy description
          then Str (toJsString description +:+ newline +:+ newline
                      +:+ paginationNote)
          else Str paginationNote
        else description in
      Ok {| name := toolName;
            title := title;
            description := description;
            methodName := methodName;
            inputSchema := inputSchema;
            outputSchema := outputSchema;
            annotations := {| readOnlyHint := readOnlyHint;
                              destructiveHint := destructiveHint;
                              idempotentHint := readOnlyHint;
                              openWorldHint := true |} |}
  | _ => Throw TypeError
  end.

Definition methods : list string := ["post"; "get"; "put"; "patch"; "delete"].

(** The operations of a document in the order the two loops visit them. *)
Definition operationsOf (spec : value) : list (string * value) :=
  flat_map
    (fun '(pathKey, pathItem) =>
       map (fun operation => (pathKey, operation))
         (List.filter truthy
            (map (getOpt pathItem) methods)))
    (ownEntries (orElse (get spec "paths") (Obj []))).

(** [spec.paths] on a document that is null is a TypeError. *)
Definition generateTools (spec : value) : result (list tool) :=
  if nullish spec then Throw TypeError
  else mapResult (fun '(pathKey, operation) => generateTool spec pathKey operation)
         (operationsOf spec).

(** [main]: the artifact is written only when [generateTools] returns;
    an exception ends the process with status 1 and the error printed. *)
Inductive outcome : Type :=
| Written (tools : list tool)
| Exit1 (e : error).

Definition main (spec : value) : outcome :=
  match generateTools spec with
  | Ok tools => Written tools
  | Throw e => Exit1 e
  end.

(** * The server that loads the tools (src/index.ts)

    The handler that [registerTools] gives every generated tool finds the
    base URL and the API key of a call with the functions below.  Header
    names are ASCII; header values are strings as Node hands them over,
    one character per byte.  A thrown [Error] is [Failed] with its
    message. *)

Inductive attempt (A : Type) : Type :=
| Done (a : A)
| Failed (message : string).
Arguments Done {A} a.
Arguments Failed {A} message.

Definition DEFAULT_BASE_URL : string := "https://app.getoutline.com/api".

(** [s.endsWith(suffix)] *)
Fixpoint endsWith (suffix s : string) : bool :=
  (s =? suffix)
  || match s with
     | EmptyString => false
     | String _ r => endsWith suffix r
     end.

(** [s.slice(0, -1)] and [s.slice(n)] *)
Fixpoint dropLast (s : string) : string :=
  match s with
  | EmptyString => EmptyString
  | String c r =>
      match r with
      | EmptyString => EmptyString
      | String _ _ => String c (dropLast r)
      end
  end.

Fixpoint dropChars (n : nat) (s : string) : string :=
  match n, s with
  | O, _ => s
  | S n', String _ r => dropChars n' r
  | S _, EmptyString => EmptyString
  end.

(** [s.trim()]: the white space among the characters below 256 is tab,
    line feed, vertical tab, form feed, carriage return, space and the
    no-break space. *)
Definition isSpace (c : ascii) : bool :=
  let n := nat_of_ascii c in
  ((9 <=? n)%nat && (n <=? 13)%nat) || (n =? 32)%nat || (n =? 160)%nat.

Fixpoint trimStart (s : string) : string :=
  match s with
  | EmptyString => EmptyString
  | String c r => if isSpace c then trimStart r else s
  end.

Fixpoint trimEnd (s : string) : string :=
  match s with
  | EmptyString => EmptyString
  | String c r =>
      match trimEnd r with
      | EmptyString => if isSpace c then EmptyString else String c EmptyString
      | t => String c t
      end
  end.

Definition trim (s : string) : string := trimEnd (trimStart s).

Definition normalizeBaseUrl (baseUrl : string) : string :=
  if endsWith "/" baseUrl then baseUrl else baseUrl +:+ "/".

Definition normalizeBaseUrlFromHeader (serverUrl : string) : attempt string :=
  let trimmed := trim serverUrl in
  if (trimmed =? EmptyString) then Failed "X-Server-Url header is empty"
  else
    let normalized :=
      if endsWith "/" trimmed then dropLast trimmed else trimmed in
    if endsWith "/api" normalized then Done normalized
    else Done (normalized +:+ "/api").

(** [undefined] is [None]; the empty string is falsy too. *)
Definition extractApiKey (authorization : option string) : option string :=
  match authorization with
  | None => None
  | Some authorization =>
      if (authorization =? EmptyString) then None
      else
        let trimmed := trim authorization in
        if (trimmed =? EmptyString) then None
        else if isPrefix "bearer " (toLowerCase trimmed)
        then Some (trim (dropChars 7 trimmed))
        else Some trimmed
  end.

(** A header: [string | string[] | undefined]. *)
Inductive headerValue : Type :=
| HeaderString (s : string)
| HeaderList (l : list string)
| HeaderUndefined.

Definition headerTruthy (value : headerValue) : bool :=
  match value with
  | HeaderString s => negb (s =? EmptyString)
  | HeaderList _ => true
  | HeaderUndefined => false
  end.

Definition normalizeHeaderValue (value : headerValue) : option string :=
  if negb (headerTruthy value) then None
  else match value with
       | HeaderList l => head l
       | HeaderString s => Some s
       | HeaderUndefined => None
       end.

(** [headers[key]] *)
Definition headerAt (headers : list (string * headerValue)) (key : string)
  : headerValue :=
  match assoc key headers with
  | Some value => value
  | None => HeaderUndefined
  end.

Definition getHeaderValue (headers : list (string * headerValue))
    (key : string) : option string :=
  let direct := headerAt headers key in
  if headerTruthy direct then normalizeHeaderValue direct
  else
    let lower := headerAt headers (toLowerCase key) in
    if headerTruthy lower then normalizeHeaderValue lower
    else
      match List.find
              (fun entry => (toLowerCase (fst entry) =? toLowerCase key))
              headers with
      | Some entry => normalizeHeaderValue (snd entry)
      | None => None
      end.

Record requestConfig : Type := {
  baseUrl : string;
  apiKey : string
}.

(** [!v] for [v : string | undefined] *)
Definition absent (v : option string) : bool :=
  match v with
  | None => true
  | Some s => (s =? EmptyString)
  end.

Definition resolveRequestConfig (transportMode : string)
    (envBaseUrl envApiKey : option string)
    (headers : list (string * headerValue)) : attempt requestConfig :=
  if (transportMode =? "stdio") then
    match envApiKey with
    | Some key =>
        if absent envApiKey
        then Failed "OUTLINE_API_KEY is required for stdio mode"
        else Done {| baseUrl := default DEFAULT_BASE_URL envBaseUrl;
                     apiKey := key |}
    | None => Failed "OUTLINE_API_KEY is required for stdio mode"
    end
  else
    let serverUrlHeader := getHeaderValue headers "x-server-url" in
    let authorizationHeader := getHeaderValue headers "authorization" in
    match extractApiKey authorizationHeader with
    | Some key =>
        if absent (Some key)
        then Failed "Missing Authorization header for Outline API key"
        else
          match serverUrlHeader with
          | Some serverUrl =>
              if absent serverUrlHeader
              then Done {| baseUrl := default DEFAULT_BASE_URL envBaseUrl;
                           apiKey := key |}
              else
                match normalizeBaseUrlFromHeader serverUrl with
                | Done url => Done {| baseUrl := url; apiKey := key |}
                | Failed message => Failed message
                end
          | None => Done {| baseUrl := default DEFAULT_BASE_URL envBaseUrl;
                            apiKey := key |}
          end
    | None => Failed "Missing Authorization header for Outline API key"
    end.

(** * Definitions for the properties *)

(** The branches of a composite, resolved one after the other at [depth];
    each branch starts from the set the branch before it left. *)
Fixpoint resolveBranches
    (deref : value -> gset string -> nat -> result (value * gset string))
    (branches : list value) (seen : gset string) (depth : nat)
  : result (list value * gset string) :=
  match branches with
  | [] => Ok ([], seen)
  | b :: rest =>
      let* r := deref b seen depth in
      let* rs := resolveBranches deref rest (snd r) depth in
      Ok (fst r :: fst rs, snd rs)
  end.

(** The property map and the required names of a resolved branch, as
    [mergeAllOfSchemas] reads them. *)
Definition propertiesOf (resolved : value) : list (string * value) :=
  if truthy (get resolved "properties")
  then ownEntries (get resolved "properties") else [].

Definition requiredOf (resolved : value) : list value :=
  arrayItems (get resolved "required").

Definition assignAll (target source : list (string * value))
  : list (string * value) :=
  fold_left (fun t kv => objSet (fst kv) (snd kv) t) source target.

(** The merged schema of resolved branches. *)
Definition mergeResolved (resolved : list value) : value :=
  Obj [("type", Str "object");
       ("properties",
         Obj (fold_left (fun acc r => assignAll acc (propertiesOf r)) resolved []));
       ("required",
         match concat (map requiredOf resolved) with
         | [] => Undefined
         | names => Arr names
         end)].

(** The union of the property maps as the design document words it: a
    name maps to its definition in the last branch that has it. *)
Definition lastDefinition (k : string) (resolved : list value) : option value :=
  fold_left
    (fun acc r => match assoc k (propertiesOf r) with
                  | Some v => Some v
                  | None => acc
                  end)
    resolved None.

Definition keys {A : Type} (l : list (string * A)) : list string := map fst l.

(** [schemaToZodExpression], as its body calls it. *)
Definition selfCompile (spec : value) (options : mode)
  : value -> nat -> gset string -> result zexpr :=
  fun s d sn => schemaToZodExpression spec s options d sn.

(** The names in the property map of a resolved node. *)
Definition declaredKeys (resolved : value) : list string :=
  keys (ownEntries (orElse (get resolved "properties") (Obj []))).

(** How a property expression is wrapped. *)
Definition wrapProperty (options : mode) (required : list value)
    (key : string) (p : zexpr) : zexpr :=
  if setHas required key then p
  else if isOutputMode options then ZNullable (ZOptional p) else ZOptional p.

(** The members of an argument object whose names the schema declares,
    and the others. *)
Definition knownMembers (declared : list string) (fs : list (string * value))
  : list (string * value) :=
  List.filter (fun kv => bool_decide (fst kv ∈ declared)) fs.

Definition unknownMembers (declared : list string) (fs : list (string * value))
  : list (string * value) :=
  List.filter (fun kv => negb (bool_decide (fst kv ∈ declared))) fs.

(** The two halves of what an object validator checks: the properties
    of its shape, and the members outside the shape. *)
Definition shapeOk (shape : list (string * zexpr)) (fs : list (string * value))
  : bool :=
  forallb (fun '(k, p) => accepts p (get (Obj fs) k)) shape.

Definition extraOk (shape : list (string * zexpr)) (unknown : unknownKeys zexpr)
  : string * value -> bool :=
  fun '(k, x) =>
    hasKey k shape
    || match unknown with
       | Strict => false
       | Passthrough => true
       | Catchall c => accepts c x
       end.


(** The derivation of a name as the design document words it: the
    identifier, or else the path without its leading slash; dots to
    underscores; an underscore at every boundary from a character in
    [left] to an upper-case letter; the characters outside the word class
    to underscores; runs of underscores collapsed; lower case; the
    prefix.  [left] is the class of lower-case letters in the document. *)
Fixpoint insertBoundaries (left : ascii -> bool) (s : string) : string :=
  match s with
  | EmptyString => EmptyString
  | String a r =>
      match r with
      | String b _ =>
          if left a && isUpper b
          then String a (String "_" (insertBoundaries left r))
          else String a (insertBoundaries left r)
      | EmptyString => String a EmptyString
      end
  end.

Definition describedSnakeCase (left : ascii -> bool) (identifier : string)
  : string :=
  toLowerCase
    (collapseUnderscores
       (replaceNonWord (insertBoundaries left (replaceDots identifier)))).

Definition lowerOrDigit (c : ascii) : bool := isLower c || isDigit c.

Definition describedToolName (left : ascii -> bool) (pathKey : string)
    (operation : value) : string :=
  "outline_"
    +:+ describedSnakeCase left
          (match get operation "operationId" with
           | Str identifier => identifier
           | _ => stripLeadingSlash pathKey
           end).

(** A digit followed by an upper-case letter. *)
Fixpoint digitBeforeUpper (s : string) : bool :=
  match s with
  | EmptyString => false
  | String a r =>
      match r with
      | String b _ => (isDigit a && isUpper b) || digitBeforeUpper r
      | EmptyString => false
      end
  end.

(** Projections of a result, to state examples. *)
Definition nameOf (r : result tool) : option string :=
  match r with Ok t => Some (name t) | Throw _ => None end.

Definition annotationsOf (r : result tool) : option annotationSet :=
  match r with Ok t => Some (annotations t) | Throw _ => None end.

Definition namesOf (r : result (list tool)) : option (list string) :=
  match r with Ok tools => Some (map name tools) | Throw _ => None end.

(** The identifier of an operation, when it is a string. *)
Definition identifierOf (po : string * value) : string :=
  strOf (operationIdOf (fst po) (snd po)).

(** The value a pointer's segments lead to, if they all are there: every
    segment is a member, own or inherited, of the object or array before
    it. *)
Fixpoint lookupParts (current : value) (parts : list string) : option value :=
  match parts with
  | [] => Some current
  | part :: rest =>
      if isIn part current then lookupParts (member current part) rest
      else None
  end.

Definition lookupPointer (spec : value) (ref : string) : option value :=
  lookupParts spec (splitOn "/" (slice2 ref)).

(** ** Documents and schemas of the examples *)

Definition selfSpec : value :=
  Obj [("components", Obj [("schemas", Obj [
    ("Node", Obj [("$ref", Str "#/components/schemas/Node")]);
    ("Tree", Obj [("type", Str "object");
                  ("properties", Obj [("child", Obj [("$ref", Str "#/components/schemas/Tree")])])])
  ])])].

Definition idSchema : value :=
  Obj [("type", Str "object");
       ("properties", Obj [("id", Obj [("type", Str "string")])]);
       ("required", Arr [Str "id"])].

Definition nodeRef : value := Obj [("$ref", Str "#/components/schemas/Node")].

Definition twoBranches : value :=
  Obj [("allOf", Arr [
    Obj [("properties", Obj [("id", Obj [("type", Str "string")])]);
         ("required", Arr [Str "id"])];
    Obj [("properties", Obj [("title", Obj [("type", Str "string")]);
                             ("text", Obj [("type", Str "string")])]);
         ("required", Arr [Str "id"; Str "title"])]])].

Definition sharedSpec : value :=
  Obj [("components", Obj [("schemas", Obj [("Base", idSchema)])])].

Definition baseRef : value := Obj [("$ref", Str "#/components/schemas/Base")].

Definition numberId : value :=
  Obj [("properties", Obj [("id", Obj [("type", Str "number")])])].

Definition optionalTitle : value :=
  Obj [("type", Str "object");
       ("properties", Obj [("id", Obj [("type", Str "string")]);
                           ("title", Obj [("type", Str "string")])]);
       ("required", Arr [Str "id"])].


Definition twoMethods : value :=
  Obj [("paths", Obj [("/users.info", Obj [("post", Obj []); ("get", Obj [])])])].

Definition twoPaths : value :=
  Obj [("paths", Obj [("/users.info", Obj [("post", Obj [])]);
                      ("/users_info", Obj [("post", Obj [])])])].

Definition missingRef : string := "#/components/schemas/Missing".



(** ** Definitions for the further properties *)

(** The characters of a generated name, and a string in which no two
    underscores are neighbours. *)
Definition isSnakeChar (c : ascii) : bool :=
  isLower c || isDigit c || isUnderscore c.

Fixpoint allChars (p : ascii -> bool) (s : string) : bool :=
  match s with
  | EmptyString => true
  | String c r => p c && allChars p r
  end.

Fixpoint noDoubleUnderscore (s : string) : bool :=
  match s with
  | EmptyString => true
  | String a r =>
      match r with
      | String b _ => negb (isUnderscore a && isUnderscore b) && noDoubleUnderscore r
      | EmptyString => true
      end
  end.

(** The set of seen references after a call, against the set before it:
    nothing is taken out, and what is put in is a pointer that
    [resolveRef] looked up. *)
Definition grows (spec : value) (seen seen' : gset string) : Prop :=
  seen ⊆ seen'
  /\ forall ref, ref ∈ seen' ->
       ref ∈ seen \/ exists target, resolveRef spec (Str ref) = Ok target.

(** A composite with an overlap, and keywords of its own. *)
Definition overlapping : value :=
  Obj [("allOf", Arr [
    Obj [("properties", Obj [("id", Obj [("type", Str "string")]);
                             ("title", Obj [("type", Str "string")])])];
    Obj [("properties", Obj [("title", Obj [("type", Str "number")])])]]);
       ("nullable", Bool true);
       ("description", Str "A document");
       ("additionalProperties", Bool true)].

Definition nullableString : value :=
  Obj [("type", Str "string"); ("nullable", Bool true);
       ("description", Str "A title"); ("example", Num 7)].

Definition numberList : value :=
  Obj [("type", Str "array"); ("items", Obj [("type", Str "number")])].

(** The schemas [buildInputSchemaExpression], [hasPagination] and
    [buildOutputSchemaExpression] start from. *)
Definition requestSchemaOf (operation : value) : value :=
  jsonBodySchema (getOpt operation "requestBody").

Definition responseSchemaOf (operation : value) : value :=
  let responses := orElse (getOpt operation "responses") (Obj []) in
  if truthy (jsonBodySchema (getOpt responses "200"))
  then jsonBodySchema (getOpt responses "200")
  else jsonBodySchema (getOpt responses "201").

(** The description of an operation before the pagination note. *)
Definition baseDescription (operation : value) : value :=
  orElse (get operation "description")
    (orElse (get operation "summary") (Str EmptyString)).

(** No character of [s] is [sep]. *)
Definition without (sep : ascii) (s : string) : bool :=
  allChars (fun c => negb (c =? sep)%char) s.

Definition separator (sep : ascii) : string := String sep EmptyString.

Definition listResponse : value :=
  Obj [("operationId", Str "documents.list");
       ("description", Str "List documents");
       ("requestBody", Obj [("content", Obj [("application/json", Obj [
          ("schema", Obj [("type", Str "object");
                          ("properties", Obj [("offset", Obj [("type", Str "number")]);
                                              ("limit", Obj [("type", Str "number")])])])])])]);
       ("responses", Obj [("200", Obj [("content", Obj [("application/json", Obj [
          ("schema", Obj [("type", Str "object");
                          ("properties", Obj [("data", Obj [("type", Str "array")])])])])])])])].

(** The first and the last character of a string, and a string with no
    white space at either end. *)
Definition firstChar (s : string) : option ascii :=
  match s with
  | EmptyString => None
  | String c _ => Some c
  end.

Fixpoint lastChar (s : string) : option ascii :=
  match s with
  | EmptyString => None
  | String c r =>
      match r with
      | EmptyString => Some c
      | String _ _ => lastChar r
      end
  end.

Definition solid (c : option ascii) : bool :=
  match c with
  | Some c => negb (isSpace c)
  | None => true
  end.

Definition edgeFree (s : string) : bool :=
  solid (firstChar s) && solid (lastChar s).

(** An argument object without its member [name]. *)
Definition withoutMember (name : string) (fs : list (string * value))
  : list (string * value) :=
  List.filter (fun kv => negb (fst kv =? name)) fs.

Definition requiredUndeclared : value :=
  Obj [("type", Str "object");
       ("properties", Obj [("title", Obj [("type", Str "string")])]);
       ("required", Arr [Str "id"])].

(** ** The calls that compile an operation

    [generateTools] has no pass over the document that looks for broken
    references: a reference is resolved by the call of [derefSchema]
    that reaches it.  A [call] is a call of [derefSchema] or of
    [schemaToZodExpression] with its arguments. *)
Inductive call : Type :=
| Deref (schema : value) (seenRefs : gset string) (depth : nat)
| Compile (schema : value) (options : mode) (depth : nat)
    (seenRefs : gset string).


(** [calls spec c c']: the body of [c] makes the call [c'], unless an
    exception ends [c] before.
    - [derefSchema] on a reference that is not in the set calls itself on
      the target, with the reference added (lines 65-70); on a composite
      it calls itself on every branch, with the set as the branches
      before have left it (lines 41-42, 72-73).
    - [schemaToZodExpression] calls [derefSchema] on its node (line 87),
      and then itself on every property of an object node (lines 104-111),
      on [additionalProperties] under input mode when that is a schema
      (lines 125-135), and on the [items] of an array node (lines
      142-150), each with a copy of the set that [derefSchema] left. *)
Inductive calls (spec : value) : call -> call -> Prop :=
| calls_target schema seenRefs depth ref target :
    truthy schema = true ->
    (depth <= MAX_SCHEMA_DEPTH)%nat ->
    get schema "$ref" = Str ref ->
    ref <> EmptyString ->
    ref ∉ seenRefs ->
    resolveRef spec (Str ref) = Ok target ->
    calls spec (Deref schema seenRefs depth)
      (Deref target (seenRefs ∪ {[ref]}) (depth + 1))
| calls_branch schema seenRefs depth before branch after merged seen1 :
    truthy schema = true ->
    (depth <= MAX_SCHEMA_DEPTH)%nat ->
    truthy (get schema "$ref") = false ->
    truthy (get schema "allOf") = true ->
    iterate (get schema "allOf") = Some (before ++ branch :: after) ->
    mergeLoop (derefSchema spec) before [] [] seenRefs depth
      = Ok (merged, seen1) ->
    calls spec (Deref schema seenRefs depth) (Deref branch seen1 (depth + 1))
| calls_deref schema options depth seenRefs :
    calls spec (Compile schema options depth seenRefs)
      (Deref schema seenRefs depth)
| calls_property schema options depth seenRefs resolved seen1 key propertySchema :
    (depth <= MAX_SCHEMA_DEPTH)%nat ->
    derefSchema spec schema seenRefs depth = Ok (resolved, seen1) ->
    truthy (get resolved "oneOf") = false ->
    truthy (get resolved "anyOf") = false ->
    objectBranch resolved = true ->
    (key, propertySchema)
      ∈ ownEntries (orElse (get resolved "properties") (Obj [])) ->
    calls spec (Compile schema options depth seenRefs)
      (Compile propertySchema options (depth + 1) seen1)
| calls_additional schema depth seenRefs resolved seen1 :
    (depth <= MAX_SCHEMA_DEPTH)%nat ->
    derefSchema spec schema seenRefs depth = Ok (resolved, seen1) ->
    truthy (get resolved "oneOf") = false ->
    truthy (get resolved "anyOf") = false ->
    objectBranch resolved = true ->
    truthy (get resolved "additionalProperties") = true ->
    strictEq (get resolved "additionalProperties") (Bool true) = false ->
    calls spec (Compile schema Input depth seenRefs)
      (Compile (get resolved "additionalProperties") Input (depth + 1) seen1)
| calls_items schema options depth seenRefs resolved seen1 :
    (depth <= MAX_SCHEMA_DEPTH)%nat ->
    derefSchema spec schema seenRefs depth = Ok (resolved, seen1) ->
    truthy (get resolved "oneOf") = false ->
    truthy (get resolved "anyOf") = false ->
    objectBranch resolved = false ->
    strictEq (get resolved "type") (Str "array") = true ->
    truthy (get resolved "items") = true ->
    calls spec (Compile schema options depth seenRefs)
      (Compile (get resolved "items") options (depth + 1) seen1).

Inductive reaches (spec : value) : call -> call -> Prop :=
| reaches_here c : reaches spec c c
| reaches_step c c1 c2 :
    calls spec c c1 -> reaches spec c1 c2 -> reaches spec c c2.





(** A dangling reference two levels down: in the items of the array that
    a property of the request schema refers to. *)
Definition documentRef : string := "#/components/schemas/Document".

Definition nestedDangling : value :=
  Obj [("paths", Obj [("/documents.update", Obj [("post", Obj [
    ("operationId", Str "documents.update");
    ("requestBody", Obj [("content", Obj [("application/json", Obj [
       ("schema", Obj [("type", Str "object");
                       ("properties", Obj [
                          ("documents", Obj [("$ref", Str documentRef)])])])])])])])])]);
       ("components", Obj [("schemas", Obj [
          ("Document", Obj [("type", Str "array");
                            ("items", Obj [("$ref", Str missingRef)])])])])].

(** A request schema that refers to a member every object inherits. *)
Definition inheritedRequest : value :=
  Obj [("paths", Obj [("/documents.create", Obj [("post", Obj [
    ("operationId", Str "documents.create");
    ("requestBody", Obj [("content", Obj [("application/json", Obj [
       ("schema", Obj [("$ref", Str "#/components/schemas/constructor")])])])])])])]);
       ("components", Obj [("schemas", Obj [])])].



(** * Properties *)

(** ** The functions on examples *)

Example toSnakeCase_documents_info :
  toSnakeCase "documents.info" = "documents_info".
Proof. reflexivity. Qed.

Example toSnakeCase_camel :
  toSnakeCase "/fileOperations.deleteAll" = "file_operations_delete_all".
Proof. reflexivity. Qed.

Example deref_self :
  derefSchema selfSpec (Obj [("$ref", Str "#/components/schemas/Node")]) ∅ 0
  = Ok (Obj [], {["#/components/schemas/Node"]}).
Proof. vm_compute. reflexivity. Qed.

Example compile_tree :
  schemaToZodExpression selfSpec
    (Obj [("$ref", Str "#/components/schemas/Tree")]) Input 0 ∅
  = Ok (ZObject [("child", ZOptional ZAny)] Strict).
Proof. vm_compute. reflexivity. Qed.

Example compile_catchall :
  let schema := Obj [("type", Str "object");
                     ("additionalProperties", Obj [("type", Str "string")])] in
  schemaToZodExpression (Obj []) schema Input 0 ∅
    = Ok (ZObject [] (Catchall ZString))
  /\ accepts (ZObject [] (Catchall ZString)) (Obj [("tag", Str "x")]) = true
  /\ accepts (ZObject [] (Catchall ZString)) (Obj [("tag", Num 1)]) = false.
Proof. repeat split; vm_compute; reflexivity. Qed.

Example render_output :
  match schemaToZodExpression (Obj []) optionalTitle Output 0 ∅ with
  | Ok e => render e
  | Throw _ => EmptyString
  end
  = "z.object({ " +:+ quote "id" +:+ ": z.string(), " +:+ quote "title"
      +:+ ": z.string().optional().nullable() }).passthrough()".
Proof. vm_compute. reflexivity. Qed.

Example render_idSchema_input :
  match schemaToZodExpression (Obj []) idSchema Input 0 ∅ with
  | Ok e => render e
  | Throw _ => EmptyString
  end = "z.object({ " +:+ quote "id" +:+ ": z.string() }).strict()".
Proof. vm_compute. reflexivity. Qed.

(** ** The equations of the two recursive functions *)

Lemma bind_ext {A B : Type} (m : result A) (k1 k2 : A -> result B) :
  (forall a, k1 a = k2 a) -> bind m k1 = bind m k2.
Proof. intros H. destruct m as [a|e]; simpl; [apply H | reflexivity]. Qed.

Lemma mapResult_ext {A B : Type} (f g : A -> result B) (l : list A) :
  (forall x, f x = g x) -> mapResult f l = mapResult g l.
Proof.
  intros H. induction l as [|x r IH]; simpl; [reflexivity|].
  rewrite H, IH. reflexivity.
Qed.

Section DerefExt.
Variables d1 d2 : value -> gset string -> nat -> result (value * gset string).
Variable depth : nat.
Hypothesis agree : forall s seen, d1 s seen (depth + 1) = d2 s seen (depth + 1).

Lemma mergeLoop_ext schemas props req seen :
  mergeLoop d1 schemas props req seen depth
  = mergeLoop d2 schemas props req seen depth.
Proof.
  revert props req seen.
  induction schemas as [|s rest IH]; intros props req seen; simpl;
    [reflexivity|].
  rewrite agree. apply bind_ext. intros r. apply IH.
Qed.

Lemma mergeAllOfSchemas_ext schemas seen :
  mergeAllOfSchemas d1 schemas seen depth
  = mergeAllOfSchemas d2 schemas seen depth.
Proof.
  unfold mergeAllOfSchemas. destruct (iterate schemas); [|reflexivity].
  rewrite mergeLoop_ext. reflexivity.
Qed.

Lemma derefSchema_body_ext spec schema seen :
  derefSchema_body d1 spec schema seen depth
  = derefSchema_body d2 spec schema seen depth.
Proof.
  unfold derefSchema_body.
  destruct (negb (truthy schema)); [reflexivity|].
  destruct (MAX_SCHEMA_DEPTH <? depth)%nat; [reflexivity|].
  destruct (truthy (get schema "$ref")).
  - destruct (get schema "$ref");
      try (apply bind_ext; intros; apply agree).
    destruct (bool_decide _); [reflexivity|].
    apply bind_ext; intros; apply agree.
  - destruct (truthy (get schema "allOf")); [|reflexivity].
    apply mergeAllOfSchemas_ext.
Qed.
End DerefExt.

Lemma fuelAt_succ depth :
  (depth <= MAX_SCHEMA_DEPTH)%nat -> fuelAt depth = S (fuelAt (depth + 1)).
Proof. unfold fuelAt, MAX_SCHEMA_DEPTH. lia. Qed.

Lemma fuelAt_pos depth : exists f, fuelAt depth = S f.
Proof. unfold fuelAt. eauto. Qed.

(** Past the depth bound, and on a falsy schema, the body does not call
    itself. *)
Lemma derefSchema_body_deep d1 d2 spec schema seen depth :
  (MAX_SCHEMA_DEPTH < depth)%nat ->
  derefSchema_body d1 spec schema seen depth
  = derefSchema_body d2 spec schema seen depth.
Proof.
  intros H. unfold derefSchema_body.
  destruct (negb (truthy schema)); [reflexivity|].
  apply Nat.ltb_lt in H. rewrite H. reflexivity.
Qed.

(** Any fuel from [fuelAt depth] on gives the same result. *)
Lemma derefSchema_fuel_enough fuel spec schema seen depth :
  (fuelAt depth <= fuel)%nat ->
  derefSchema_fuel fuel spec schema seen depth
  = derefSchema spec schema seen depth.
Proof.
  unfold derefSchema. revert schema seen depth.
  induction fuel as [|fuel IH]; intros schema seen depth Hle.
  - unfold fuelAt in Hle. lia.
  - destruct (le_lt_dec depth MAX_SCHEMA_DEPTH) as [Hd|Hd].
    + rewrite (fuelAt_succ depth Hd). simpl.
      apply derefSchema_body_ext. intros s sn.
      rewrite IH; [reflexivity|].
      rewrite (fuelAt_succ depth Hd) in Hle. lia.
    + destruct (fuelAt_pos depth) as [f ->]. simpl.
      apply derefSchema_body_deep. exact Hd.
Qed.

(** The equation of [derefSchema]: the source, read as it is written. *)
Lemma derefSchema_eq spec schema seen depth :
  derefSchema spec schema seen depth
  = derefSchema_body (derefSchema spec) spec schema seen depth.
Proof.
  destruct (le_lt_dec depth MAX_SCHEMA_DEPTH) as [Hd|Hd].
  - unfold derefSchema at 1. rewrite (fuelAt_succ depth Hd). simpl.
    apply derefSchema_body_ext. intros s sn. reflexivity.
  - unfold derefSchema at 1. destruct (fuelAt_pos depth) as [f ->]. simpl.
    apply derefSchema_body_deep. exact Hd.
Qed.

(** *** No call runs out of fuel *)

Lemma walkParts_error ref current parts e :
  walkParts ref current parts = Throw e -> e = Unresolvable ref.
Proof.
  revert current. induction parts as [|p rest IH]; intros current; simpl.
  - discriminate.
  - destruct (_ && _); [apply IH | congruence].
Qed.

Lemma resolveRef_error spec ref e :
  resolveRef spec ref = Throw e ->
  e = TypeError \/ exists r, ref = Str r /\ (e = Unsupported r \/ e = Unresolvable r).
Proof.
  destruct ref; simpl; try (intros [= <-]; left; reflexivity).
  destruct (negb (startsWithHashSlash s)).
  - intros [= <-]. right. eauto.
  - intros H. apply walkParts_error in H. right. eauto.
Qed.

Lemma resolveRef_fuel spec ref : resolveRef spec ref <> Throw FuelExhausted.
Proof.
  intros H. apply resolveRef_error in H as [H|(r & _ & [H|H])]; discriminate.
Qed.

Section NoExhaust.
Variable deref : value -> gset string -> nat -> result (value * gset string).
Variable depth : nat.
Hypothesis total : forall s seen, deref s seen (depth + 1) <> Throw FuelExhausted.

Lemma mergeLoop_fuel schemas props req seen :
  mergeLoop deref schemas props req seen depth <> Throw FuelExhausted.
Proof.
  revert props req seen.
  induction schemas as [|s rest IH]; intros props req seen; simpl;
    [discriminate|].
  destruct (deref s seen (depth + 1)) as [r|e] eqn:E; simpl.
  - apply IH.
  - intros [= ->]. exact (total _ _ E).
Qed.

Lemma derefSchema_body_fuel spec schema seen :
  derefSchema_body deref spec schema seen depth <> Throw FuelExhausted.
Proof.
  unfold derefSchema_body.
  destruct (negb (truthy schema)); [discriminate|].
  destruct (MAX_SCHEMA_DEPTH <? depth)%nat; [discriminate|].
  assert (Hres : forall ref sn,
    bind (resolveRef spec ref) (fun target => deref target sn (depth + 1))
    <> Throw FuelExhausted).
  { intros ref sn. destruct (resolveRef spec ref) as [t|e] eqn:E; simpl.
    - apply total.
    - intros [= ->]. exact (resolveRef_fuel _ _ E). }
  destruct (truthy (get schema "$ref")).
  - destruct (get schema "$ref"); try apply Hres.
    destruct (bool_decide _); [discriminate | apply Hres].
  - destruct (truthy (get schema "allOf")); [|discriminate].
    unfold mergeAllOfSchemas. destruct (iterate _); [|discriminate].
    destruct (mergeLoop _ _ _ _ _ _) as [m|e] eqn:E; simpl; [discriminate|].
    intros [= ->]. exact (mergeLoop_fuel _ _ _ _ E).
Qed.
End NoExhaust.

Lemma derefSchema_total spec schema seen depth :
  derefSchema spec schema seen depth <> Throw FuelExhausted.
Proof.
  remember (S MAX_SCHEMA_DEPTH - depth)%nat as k eqn:Hk.
  revert schema seen depth Hk.
  induction k as [|k IH]; intros schema seen depth Hk;
    rewrite derefSchema_eq.
  - destruct (le_lt_dec depth MAX_SCHEMA_DEPTH) as [Hd|Hd]; [lia|].
    unfold derefSchema_body.
    destruct (negb (truthy schema)); [discriminate|].
    apply Nat.ltb_lt in Hd. rewrite Hd. discriminate.
  - apply derefSchema_body_fuel. intros s sn. apply IH. lia.
Qed.

(** ** Depth, seen references, self-reference *)

Lemma getOpt_get v k : getOpt v k = get v k.
Proof. destruct v; reflexivity. Qed.

Lemma get_ref_truthy schema ref :
  get schema "$ref" = Str ref -> truthy schema = true.
Proof. destruct schema; simpl; try discriminate; reflexivity. Qed.

Lemma truthy_Str ref : ref <> EmptyString -> truthy (Str ref) = true.
Proof. intros H. simpl. destruct ref; [congruence | reflexivity]. Qed.

Lemma derefSchema_deep spec schema seen depth :
  (MAX_SCHEMA_DEPTH < depth)%nat ->
  derefSchema spec schema seen depth = Ok (Obj [], seen).
Proof.
  intros H. rewrite derefSchema_eq. unfold derefSchema_body.
  destruct (negb (truthy schema)); [reflexivity|].
  apply Nat.ltb_lt in H. rewrite H. reflexivity.
Qed.

Lemma derefSchema_seen spec schema seen depth ref :
  get schema "$ref" = Str ref -> ref <> EmptyString -> ref ∈ seen ->
  derefSchema spec schema seen depth = Ok (Obj [], seen).
Proof.
  intros Hget Hne Hin. rewrite derefSchema_eq. unfold derefSchema_body.
  rewrite (get_ref_truthy _ _ Hget). simpl.
  destruct (MAX_SCHEMA_DEPTH <? depth)%nat; [reflexivity|].
  rewrite Hget, (truthy_Str _ Hne).
  rewrite bool_decide_eq_true_2 by exact Hin. reflexivity.
Qed.

Lemma derefSchema_self spec schema seen depth ref :
  get schema "$ref" = Str ref -> ref <> EmptyString ->
  resolveRef spec (Str ref) = Ok schema ->
  exists seen', derefSchema spec schema seen depth = Ok (Obj [], seen').
Proof.
  intros Hget Hne Hres.
  destruct (decide (ref ∈ seen)) as [Hin|Hin].
  { exists seen. eapply derefSchema_seen; eauto. }
  rewrite derefSchema_eq. unfold derefSchema_body.
  rewrite (get_ref_truthy _ _ Hget). simpl negb. cbv iota.
  destruct (MAX_SCHEMA_DEPTH <? depth)%nat; [eauto|].
  rewrite Hget, (truthy_Str _ Hne).
  rewrite bool_decide_eq_false_2 by exact Hin.
  rewrite Hres. simpl.
  exists (seen ∪ {[ref]}).
  eapply derefSchema_seen; eauto. set_solver.
Qed.

(** An empty schema compiles to the validator that accepts everything. *)
Lemma schemaToZodExpression_empty spec schema options depth seen seen' :
  derefSchema spec schema seen depth = Ok (Obj [], seen') ->
  schemaToZodExpression spec schema options depth seen = Ok ZAny.
Proof.
  intros H. unfold schemaToZodExpression.
  destruct (fuelAt_pos depth) as [f ->]. simpl.
  unfold schemaToZodExpression_body. rewrite H. simpl.
  destruct (MAX_SCHEMA_DEPTH <? depth)%nat; [reflexivity|].
  destruct options; reflexivity.
Qed.

(** ** Composites *)

Lemma assoc_objSet {A : Type} k k' (v : A) l :
  assoc k (objSet k' v l) = if k' =? k then Some v else assoc k l.
Proof.
  induction l as [|[k0 v0] r IH]; simpl.
  - reflexivity.
  - destruct (k0 =? k')%string eqn:E0; simpl.
    + apply String.eqb_eq in E0. subst k0.
      destruct (k' =? k)%string; reflexivity.
    + rewrite IH. destruct (k0 =? k)%string eqn:E1; [|reflexivity].
      apply String.eqb_eq in E1. subst k0.
      rewrite String.eqb_sym, E0. reflexivity.
Qed.

Lemma assoc_None_keys {A : Type} k (l : list (string * A)) :
  assoc k l = None <-> k ∉ keys l.
Proof.
  induction l as [|[k0 v0] r IH]; simpl.
  - split; [intros _; apply not_elem_of_nil | reflexivity].
  - rewrite not_elem_of_cons. destruct (k0 =? k)%string eqn:E.
    + apply String.eqb_eq in E. split; [discriminate | intros [? _]; congruence].
    + apply String.eqb_neq in E. rewrite IH. intuition congruence.
Qed.

Lemma assoc_assignAll k source : forall target,
  NoDup (keys source) ->
  assoc k (assignAll target source)
  = match assoc k source with Some v => Some v | None => assoc k target end.
Proof.
  unfold assignAll.
  induction source as [|[k1 v1] r IH]; intros target Hnd; simpl.
  - reflexivity.
  - simpl in Hnd. apply NoDup_cons in Hnd as [Hnot Hnd']. simpl in Hnot.
    rewrite IH by exact Hnd'. rewrite assoc_objSet. simpl.
    destruct (k1 =? k)%string eqn:E.
    + apply String.eqb_eq in E. subst k1.
      apply assoc_None_keys in Hnot. rewrite Hnot. reflexivity.
    + reflexivity.
Qed.

Lemma length_objSet_fresh {A : Type} k (v : A) l :
  k ∉ keys l -> length (objSet k v l) = S (length l).
Proof.
  induction l as [|[k0 v0] r IH]; simpl; intros H.
  - reflexivity.
  - apply not_elem_of_cons in H as [Hne H].
    destruct (k0 =? k)%string eqn:E.
    + apply String.eqb_eq in E. congruence.
    + simpl. rewrite IH; auto.
Qed.

Lemma keys_objSet {A : Type} k (v : A) l x :
  x ∈ keys (objSet k v l) <-> x = k \/ x ∈ keys l.
Proof.
  induction l as [|[k0 v0] r IH]; simpl.
  - rewrite list_elem_of_singleton, elem_of_nil. tauto.
  - destruct (k0 =? k)%string eqn:E; simpl.
    + apply String.eqb_eq in E. subst. rewrite !elem_of_cons. tauto.
    + rewrite !elem_of_cons, IH. tauto.
Qed.

Lemma length_assignAll source : forall target,
  NoDup (keys source) ->
  (forall x, x ∈ keys source -> x ∉ keys target) ->
  length (assignAll target source) = (length target + length source)%nat.
Proof.
  unfold assignAll.
  induction source as [|[k1 v1] r IH]; intros target Hnd Hdis; simpl.
  - lia.
  - simpl in Hnd. apply NoDup_cons in Hnd as [Hnot Hnd']. simpl in Hnot.
    rewrite IH; [| exact Hnd' |].
    + rewrite length_objSet_fresh; [lia|]. apply Hdis. simpl. apply elem_of_cons. auto.
    + intros x Hx. rewrite keys_objSet. intros [->|Hin].
      * apply Hnot. exact Hx.
      * apply (Hdis x); [simpl; apply elem_of_cons; auto | exact Hin].
Qed.

Lemma keys_assignAll source : forall target x,
  x ∈ keys (assignAll target source) <-> x ∈ keys target \/ x ∈ keys source.
Proof.
  unfold assignAll.
  induction source as [|[k1 v1] r IH]; intros target x; simpl.
  - rewrite elem_of_nil. tauto.
  - rewrite IH, keys_objSet, elem_of_cons. simpl. tauto.
Qed.

Lemma lastDefinition_fold k resolved : forall acc props,
  Forall (fun r => NoDup (keys (propertiesOf r))) resolved ->
  assoc k props = acc ->
  assoc k (fold_left (fun a r => assignAll a (propertiesOf r)) resolved props)
  = fold_left
      (fun a r => match assoc k (propertiesOf r) with
                  | Some v => Some v
                  | None => a
                  end) resolved acc.
Proof.
  induction resolved as [|r rest IH]; intros acc props Hall Hacc; simpl.
  - exact Hacc.
  - inversion Hall; subst. apply IH; [assumption|].
    rewrite assoc_assignAll by assumption. reflexivity.
Qed.

Section MergeLoopSpec.
Variable deref : value -> gset string -> nat -> result (value * gset string).

Lemma mergeLoop_resolveBranches depth branches : forall props req seen,
  mergeLoop deref branches props req seen depth
  = let* rs := resolveBranches deref branches seen (depth + 1) in
    Ok (fold_left (fun acc r => assignAll acc (propertiesOf r)) (fst rs) props,
        req ++ concat (map requiredOf (fst rs)),
        snd rs).
Proof.
  induction branches as [|b rest IH]; intros props req seen; simpl.
  - rewrite app_nil_r. reflexivity.
  - destruct (deref b seen (depth + 1)) as [[r sn]|e]; simpl; [|reflexivity].
    rewrite IH.
    destruct (resolveBranches deref rest sn (depth + 1)) as [[rs sn']|e];
      simpl; [|reflexivity].
    rewrite !getOpt_get.
    assert (Hp : (if truthy (get r "properties")
                  then objectAssign props (get r "properties") else props)
                 = assignAll props (propertiesOf r)).
    { unfold propertiesOf, objectAssign, assignAll.
      destruct (truthy (get r "properties")); reflexivity. }
    assert (Hr : match get r "required" with
                 | Arr l => req ++ l
                 | _ => req
                 end = req ++ requiredOf r).
    { unfold requiredOf, arrayItems.
      destruct (get r "required"); rewrite ?app_nil_r; reflexivity. }
    rewrite Hp, Hr, <- app_assoc. reflexivity.
Qed.

Lemma mergeAllOfSchemas_resolved depth branches seen :
  mergeAllOfSchemas deref (Arr branches) seen depth
  = let* rs := resolveBranches deref branches seen (depth + 1) in
    Ok (mergeResolved (fst rs), snd rs).
Proof.
  unfold mergeAllOfSchemas. simpl iterate. cbv iota.
  rewrite mergeLoop_resolveBranches.
  destruct (resolveBranches deref branches seen (depth + 1)) as [[rs sn]|e];
    simpl; [|reflexivity].
  unfold mergeResolved.
  destruct (concat (map requiredOf rs)); reflexivity.
Qed.
End MergeLoopSpec.

Lemma get_allOf_truthy schema branches :
  get schema "allOf" = Arr branches -> truthy schema = true.
Proof. destruct schema; simpl; try discriminate; reflexivity. Qed.

(** C3.  A composite resolves to the merge of its branches, each resolved
    at depth + 1.  The merge is typed object; a property name maps to its
    definition in the last branch that has it; the required names are
    those of the branches, concatenated as they are; and the merge of two
    branches with disjoint property names has as many properties as both
    together. *)
Theorem allOf_merge spec schema branches seen depth :
  get schema "allOf" = Arr branches ->
  truthy (get schema "$ref") = false ->
  (depth <= MAX_SCHEMA_DEPTH)%nat ->
  derefSchema spec schema seen depth
  = (let* rs := resolveBranches (derefSchema spec) branches seen (depth + 1) in
     Ok (mergeResolved (fst rs), snd rs))
  /\ forall resolved,
       get (mergeResolved resolved) "type" = Str "object"
       /\ get (mergeResolved resolved) "required"
          = match concat (map requiredOf resolved) with
            | [] => Undefined
            | names => Arr names
            end
       /\ exists props,
            get (mergeResolved resolved) "properties" = Obj props
            /\ (Forall (fun r => NoDup (keys (propertiesOf r))) resolved ->
                forall k, assoc k props = lastDefinition k resolved)
            /\ (forall r1 r2, resolved = [r1; r2] ->
                NoDup (keys (propertiesOf r1)) ->
                NoDup (keys (propertiesOf r2)) ->
                (forall k, k ∈ keys (propertiesOf r1) ->
                           k ∉ keys (propertiesOf r2)) ->
                length props
                = (length (propertiesOf r1) + length (propertiesOf r2))%nat).
Proof.
  intros Hall Href Hdepth. split.
  - rewrite derefSchema_eq. unfold derefSchema_body.
    rewrite (get_allOf_truthy _ _ Hall). simpl negb. cbv iota.
    apply Nat.ltb_ge in Hdepth. rewrite Hdepth, Href, Hall. simpl truthy.
    cbv iota. apply mergeAllOfSchemas_resolved.
  - intros resolved. split; [reflexivity|]. split; [reflexivity|].
    eexists. split; [reflexivity|]. split.
    + intros Hnd k. unfold lastDefinition.
      apply lastDefinition_fold; [exact Hnd | reflexivity].
    + intros r1 r2 -> Hn1 Hn2 Hdis. simpl.
      rewrite length_assignAll; [| exact Hn2 |].
      * rewrite length_assignAll; [simpl; lia | exact Hn1 |].
        intros x _. apply not_elem_of_nil.
      * intros x Hx2 Hx. apply keys_assignAll in Hx as [Hx|Hx].
        -- simpl in Hx. apply elem_of_nil in Hx. exact Hx.
        -- exact (Hdis x Hx Hx2).
Qed.

Lemma allOf_merge_witness :
  derefSchema (Obj []) twoBranches ∅ 0
  = Ok (Obj [("type", Str "object");
             ("properties", Obj [("id", Obj [("type", Str "string")]);
                                 ("title", Obj [("type", Str "string")]);
                                 ("text", Obj [("type", Str "string")])]);
             ("required", Arr [Str "id"; Str "id"; Str "title"])], ∅).
Proof.
  destruct (allOf_merge (Obj []) twoBranches
              (arrayItems (get twoBranches "allOf")) ∅ 0) as [E _].
  - reflexivity.
  - reflexivity.
  - unfold MAX_SCHEMA_DEPTH. lia.
  - rewrite E. vm_compute. reflexivity.
Defined.

Example allOf_last_wins :
  fst <$> (match derefSchema (Obj [])
                   (Obj [("allOf", Arr [
                      Obj [("properties", Obj [("id", Obj [("type", Str "string")])])];
                      Obj [("properties", Obj [("id", Obj [("type", Str "number")])])]])])
                   ∅ 0 with Ok r => Some r | Throw _ => None end)
  = Some (Obj [("type", Str "object");
               ("properties", Obj [("id", Obj [("type", Str "number")])]);
               ("required", Undefined)]).
Proof. vm_compute. reflexivity. Qed.

(** ** The set of seen references is shared by the branches of a composite *)

(** C9, on the code.  Two sibling branches of a composite refer to the
    same schema, which has no cycle.  The first resolves to it in full and
    leaves its reference in the set; the second is handed that same set
    and degrades to the empty schema.  So the required name is listed
    once, and a definition between the two is not overridden by the
    second.  The properties of an object, which get a copy of the set
    each, both compile in full. *)
Theorem allOf_siblings_share_seenRefs :
  derefSchema sharedSpec baseRef ∅ 1
    = Ok (idSchema, {["#/components/schemas/Base"]})
  /\ derefSchema sharedSpec baseRef {["#/components/schemas/Base"]} 1
    = Ok (Obj [], {["#/components/schemas/Base"]})
  /\ resolveBranches (derefSchema sharedSpec) [baseRef; baseRef] ∅ 1
    = Ok ([idSchema; Obj []], {["#/components/schemas/Base"]})
  /\ derefSchema sharedSpec (Obj [("allOf", Arr [baseRef; baseRef])]) ∅ 0
    = Ok (Obj [("type", Str "object");
               ("properties", Obj [("id", Obj [("type", Str "string")])]);
               ("required", Arr [Str "id"])],
          {["#/components/schemas/Base"]})
  /\ derefSchema sharedSpec
       (Obj [("allOf", Arr [baseRef; numberId; baseRef])]) ∅ 0
    = Ok (Obj [("type", Str "object");
               ("properties", Obj [("id", Obj [("type", Str "number")])]);
               ("required", Arr [Str "id"])],
          {["#/components/schemas/Base"]})
  /\ schemaToZodExpression sharedSpec
       (Obj [("type", Str "object");
             ("properties", Obj [("a", baseRef); ("b", baseRef)])]) Input 0 ∅
    = Ok (ZObject
            [("a", ZOptional (ZObject [("id", ZString)] Strict));
             ("b", ZOptional (ZObject [("id", ZString)] Strict))] Strict).
Proof. repeat split; vm_compute; reflexivity. Qed.

(** ** The equation of [schemaToZodExpression] *)

Section CompileExt.
Variables s1 s2 : value -> nat -> gset string -> result zexpr.
Variable spec : value.
Variable options : mode.
Variable depth : nat.
Hypothesis agree : forall s seen, s1 s (depth + 1) seen = s2 s (depth + 1) seen.

Lemma objectExpression_ext resolved seen :
  objectExpression s1 options resolved depth seen
  = objectExpression s2 options resolved depth seen.
Proof.
  unfold objectExpression.
  apply bind_ext. intros required.
  rewrite (mapResult_ext (propertyEntry s1 options required depth seen)
             (propertyEntry s2 options required depth seen)).
  - apply bind_ext. intros entries. rewrite agree. reflexivity.
  - intros [k p]. unfold propertyEntry. simpl. rewrite agree. reflexivity.
Qed.

Lemma typedExpression_ext resolved seen :
  typedExpression s1 options resolved depth seen
  = typedExpression s2 options resolved depth seen.
Proof.
  unfold typedExpression. rewrite objectExpression_ext, agree. reflexivity.
Qed.
End CompileExt.

Lemma schemaToZodExpression_eq spec schema options depth seen :
  schemaToZodExpression spec schema options depth seen
  = schemaToZodExpression_body
      (fun s d sn => schemaToZodExpression spec s options d sn)
      spec options schema depth seen.
Proof.
  unfold schemaToZodExpression at 1.
  destruct (le_lt_dec depth MAX_SCHEMA_DEPTH) as [Hd|Hd].
  - rewrite (fuelAt_succ depth Hd). simpl.
    unfold schemaToZodExpression_body.
    apply bind_ext. intros r.
    destruct (_ || _); [reflexivity|]. destruct (_ || _); [reflexivity|].
    erewrite typedExpression_ext; [reflexivity|].
    intros s sn. reflexivity.
  - destruct (fuelAt_pos depth) as [f ->]. simpl.
    unfold schemaToZodExpression_body.
    apply bind_ext. intros r.
    apply Nat.ltb_lt in Hd. rewrite Hd, orb_true_r. reflexivity.
Qed.

(** *** Compilation returns too *)

Lemma bind_fuel {A B : Type} (m : result A) (k : A -> result B) :
  m <> Throw FuelExhausted ->
  (forall a, k a <> Throw FuelExhausted) ->
  bind m k <> Throw FuelExhausted.
Proof.
  intros Hm Hk. destruct m as [a|e]; simpl; [apply Hk|].
  intros [= ->]. apply Hm. reflexivity.
Qed.

Lemma mapResult_fuel {A B : Type} (f : A -> result B) (l : list A) :
  (forall x, f x <> Throw FuelExhausted) ->
  mapResult f l <> Throw FuelExhausted.
Proof.
  intros Hf. induction l as [|x r IH]; simpl; [discriminate|].
  apply bind_fuel; [apply Hf|]. intros y.
  apply bind_fuel; [exact IH | discriminate].
Qed.

Section CompileNoExhaust.
Variable self : value -> nat -> gset string -> result zexpr.
Variable options : mode.
Variable depth : nat.
Hypothesis total : forall s seen, self s (depth + 1) seen <> Throw FuelExhausted.

Lemma typedExpression_fuel resolved seen :
  typedExpression self options resolved depth seen <> Throw FuelExhausted.
Proof.
  unfold typedExpression.
  destruct (objectBranch resolved).
  - unfold objectExpression.
    apply bind_fuel.
    { unfold requiredSet. destruct (iterate _); discriminate. }
    intros required. apply bind_fuel.
    { apply mapResult_fuel. intros [k p]. unfold propertyEntry.
      apply bind_fuel; [apply total | discriminate]. }
    intros entries.
    destruct (isOutputMode options); [discriminate|].
    destruct (truthy _); [|discriminate].
    destruct (strictEq _ _); [discriminate|].
    apply bind_fuel; [apply total | discriminate].
  - destruct (strictEq _ (Str "array")).
    { apply bind_fuel; [|discriminate].
      destruct (truthy _); [apply total | discriminate]. }
    repeat (match goal with
            | |- context [if ?c then _ else _] => destruct c
            end; try discriminate).
Qed.
End CompileNoExhaust.

Lemma schemaToZodExpression_total spec schema options depth seen :
  schemaToZodExpression spec schema options depth seen <> Throw FuelExhausted.
Proof.
  remember (S MAX_SCHEMA_DEPTH - depth)%nat as k eqn:Hk.
  revert schema seen depth Hk.
  induction k as [|k IH]; intros schema seen depth Hk;
    rewrite schemaToZodExpression_eq; unfold schemaToZodExpression_body;
    (apply bind_fuel; [apply derefSchema_total|]); intros r.
  - replace (MAX_SCHEMA_DEPTH <? depth)%nat with true
      by (symmetry; apply Nat.ltb_lt; lia).
    rewrite orb_true_r. discriminate.
  - destruct (_ || _); [discriminate|]. destruct (_ || _); [discriminate|].
    apply bind_fuel; [|discriminate].
    apply typedExpression_fuel. intros s sn. apply IH. lia.
Qed.

(** [derefSchema] hands back a truthy value: the empty schema, a merge,
    or a schema that passed its first test. *)
Lemma derefSchema_truthy spec schema seen depth resolved seen' :
  derefSchema spec schema seen depth = Ok (resolved, seen') ->
  truthy resolved = true.
Proof.
  remember (S MAX_SCHEMA_DEPTH - depth)%nat as k eqn:Hk.
  revert schema seen depth Hk resolved seen'.
  induction k as [|k IH]; intros schema seen depth Hk resolved seen';
    rewrite derefSchema_eq; unfold derefSchema_body.
  - destruct (truthy schema); simpl; [|intros [= <- _]; reflexivity].
    replace (MAX_SCHEMA_DEPTH <? depth)%nat with true
      by (symmetry; apply Nat.ltb_lt; lia).
    intros [= <- _]. reflexivity.
  - assert (Hrec : forall ref sn,
      bind (resolveRef spec ref)
        (fun target => derefSchema spec target sn (depth + 1))
      = Ok (resolved, seen') -> truthy resolved = true).
    { intros ref sn. destruct (resolveRef spec ref) as [t|e]; simpl;
        [|discriminate].
      apply IH. lia. }
    destruct (truthy schema) eqn:Ht; simpl; [|intros [= <- _]; reflexivity].
    destruct (MAX_SCHEMA_DEPTH <? depth)%nat; [intros [= <- _]; reflexivity|].
    destruct (truthy (get schema "$ref")).
    + destruct (get schema "$ref") as [| | | |r| | | |]; try discriminate.
      destruct (bool_decide _); [intros [= <- _]; reflexivity|].
      apply (Hrec (Str r)).
    + destruct (truthy (get schema "allOf")).
      * unfold mergeAllOfSchemas. destruct (iterate _); [|discriminate].
        destruct (mergeLoop _ _ _ _ _ _); simpl; [|discriminate].
        intros [= <- _]. reflexivity.
      * intros [= <- _]. exact Ht.
Qed.

(** ** Resolution terminates *)

(** C4.  [derefSchema] returns on every input: with the fuel it is given
    it never runs out, and more fuel changes nothing; the same holds for
    the compilation that calls it.  Past depth 8 the result is the empty
    schema; so it is on a reference that is already in the set of seen
    references; and so it is for a schema that is a reference to itself,
    which then compiles to the validator that accepts everything. *)
Theorem derefSchema_terminates spec schema seen depth :
  (derefSchema spec schema seen depth <> Throw FuelExhausted
   /\ forall fuel, (fuelAt depth <= fuel)%nat ->
        derefSchema_fuel fuel spec schema seen depth
        = derefSchema spec schema seen depth)
  /\ (forall options,
        schemaToZodExpression spec schema options depth seen
        <> Throw FuelExhausted)
  /\ ((MAX_SCHEMA_DEPTH < depth)%nat ->
      derefSchema spec schema seen depth = Ok (Obj [], seen))
  /\ (forall ref, get schema "$ref" = Str ref -> ref <> EmptyString -> ref ∈ seen ->
      derefSchema spec schema seen depth = Ok (Obj [], seen))
  /\ (forall ref, get schema "$ref" = Str ref -> ref <> EmptyString ->
      resolveRef spec (Str ref) = Ok schema ->
      (exists seen', derefSchema spec schema seen depth = Ok (Obj [], seen'))
      /\ forall options,
           schemaToZodExpression spec schema options depth seen = Ok ZAny).
Proof.
  repeat split.
  - apply derefSchema_total.
  - intros fuel H. apply derefSchema_fuel_enough. exact H.
  - intros options. apply schemaToZodExpression_total.
  - apply derefSchema_deep.
  - intros ref. apply derefSchema_seen.
  - eapply derefSchema_self; eauto.
  - intros options.
    destruct (derefSchema_self spec schema seen depth ref) as [seen' E]; auto.
    eapply schemaToZodExpression_empty. exact E.
Qed.

Lemma derefSchema_terminates_witness :
  (exists seen', derefSchema selfSpec nodeRef ∅ 0 = Ok (Obj [], seen'))
  /\ forall options, schemaToZodExpression selfSpec nodeRef options 0 ∅ = Ok ZAny.
Proof.
  destruct (derefSchema_terminates selfSpec nodeRef ∅ 0) as (_ & _ & _ & _ & H).
  apply (H "#/components/schemas/Node").
  - reflexivity.
  - discriminate.
  - vm_compute. reflexivity.
Defined.

(** ** The shape of a compiled object *)

Lemma mapResult_propertyEntry self options required depth seen l : forall entries,
  mapResult (propertyEntry self options required depth seen) l = Ok entries ->
  keys entries = keys l
  /\ Forall (fun kp => exists p, snd kp = wrapProperty options required (fst kp) p)
       entries.
Proof.
  induction l as [|[k s] r IH]; intros entries; simpl.
  - intros [= <-]. split; [reflexivity | constructor].
  - unfold propertyEntry at 1. simpl.
    destruct (self s (depth + 1) seen) as [p|e]; simpl; [|discriminate].
    destruct (mapResult _ r) as [es|e]; simpl; [|discriminate].
    intros [= <-]. destruct (IH es eq_refl) as [Hk Hall].
    split; [simpl; rewrite Hk; reflexivity|].
    constructor; [|exact Hall]. simpl. eexists. reflexivity.
Qed.

(** What compiling an object-shaped node gives. *)
Lemma compile_object spec schema options depth seen resolved seen1 e :
  (depth <= MAX_SCHEMA_DEPTH)%nat ->
  derefSchema spec schema seen depth = Ok (resolved, seen1) ->
  truthy (get resolved "oneOf") = false ->
  truthy (get resolved "anyOf") = false ->
  objectBranch resolved = true ->
  schemaToZodExpression spec schema options depth seen = Ok e ->
  exists required entries unknown,
    requiredSet (get resolved "required") = Ok required
    /\ keys entries = declaredKeys resolved
    /\ Forall (fun kp => exists p,
                 snd kp = wrapProperty options required (fst kp) p) entries
    /\ e = decorate resolved (ZObject entries unknown)
    /\ match options with
       | Output => unknown = Passthrough
       | Input =>
           if truthy (get resolved "additionalProperties") then
             if strictEq (get resolved "additionalProperties") (Bool true)
             then unknown = Passthrough
             else exists c,
                 schemaToZodExpression spec
                   (get resolved "additionalProperties") Input (depth + 1) seen1
                 = Ok c
                 /\ unknown = Catchall c
           else unknown = Strict
       end.
Proof.
  intros Hd Hderef Hone Hany Hobj.
  rewrite schemaToZodExpression_eq. unfold schemaToZodExpression_body.
  rewrite Hderef. simpl fst. simpl snd. simpl bind.
  rewrite (derefSchema_truthy _ _ _ _ _ _ Hderef).
  apply Nat.ltb_ge in Hd. rewrite Hd, Hone, Hany. simpl.
  unfold typedExpression. rewrite Hobj. unfold objectExpression.
  destruct (requiredSet (get resolved "required")) as [required|err];
    simpl; [|discriminate].
  destruct (mapResult _ _) as [entries|err] eqn:Hmap; simpl; [|discriminate].
  apply mapResult_propertyEntry in Hmap as [Hkeys Hall].
  destruct options; simpl.
  - destruct (truthy (get resolved "additionalProperties")).
    + destruct (strictEq (get resolved "additionalProperties") (Bool true)).
      * intros [= <-]. exists required, entries, Passthrough. auto.
      * destruct (schemaToZodExpression spec _ Input (depth + 1) seen1)
          as [c|err] eqn:Hc; simpl; [|discriminate].
        intros [= <-]. exists required, entries, (Catchall c).
        repeat split; eauto.
    + intros [= <-]. exists required, entries, Strict. auto.
  - intros [= <-]. exists required, entries, Passthrough. auto.
Qed.

(** ** What a compiled object accepts *)

(** A concrete name is not in a concrete list of names. *)
Ltac notKey :=
  let H := fresh "H" in
  intros H;
  repeat (apply elem_of_cons in H as [H|H]; [discriminate|]);
  apply elem_of_nil in H; exact H.

Lemma accepts_object shape unknown fs :
  accepts (ZObject shape unknown) (Obj fs)
  = shapeOk shape fs && forallb (extraOk shape unknown) fs.
Proof. reflexivity. Qed.

Lemma hasKey_keys {A : Type} k (l : list (string * A)) :
  hasKey k l = bool_decide (k ∈ keys l).
Proof.
  unfold hasKey. destruct (assoc k l) eqn:E.
  - symmetry. apply bool_decide_eq_true_2.
    destruct (decide (k ∈ keys l)) as [H|H]; [exact H|].
    apply assoc_None_keys in H. congruence.
  - symmetry. apply bool_decide_eq_false_2. apply assoc_None_keys. exact E.
Qed.

(** The nullable flag and the documentation change nothing for a value
    that is not null. *)
Lemma accepts_decorate resolved e v :
  strictEq v Null = false ->
  accepts (decorate resolved e) v = accepts e v.
Proof.
  intros Hv. unfold decorate.
  destruct (0 <? length _)%nat; simpl;
    destruct (truthy (get resolved "nullable")); simpl;
    rewrite ?Hv; reflexivity.
Qed.

Lemma assoc_knownMembers declared k fs :
  k ∈ declared -> assoc k (knownMembers declared fs) = assoc k fs.
Proof.
  intros Hk. induction fs as [|[k0 v0] r IH]; simpl; [reflexivity|].
  destruct (bool_decide (k0 ∈ declared)) eqn:E; simpl.
  - rewrite IH. reflexivity.
  - destruct (k0 =? k)%string eqn:Ek; [|exact IH].
    apply String.eqb_eq in Ek. subst k0.
    rewrite bool_decide_eq_true_2 in E by exact Hk. discriminate.
Qed.

Lemma get_knownMembers declared k fs :
  k ∈ declared -> get (Obj (knownMembers declared fs)) k = get (Obj fs) k.
Proof. intros Hk. simpl. rewrite assoc_knownMembers by exact Hk. reflexivity. Qed.

Lemma shapeOk_known declared shape fs :
  (forall k, k ∈ keys shape -> k ∈ declared) ->
  shapeOk shape (knownMembers declared fs) = shapeOk shape fs.
Proof.
  unfold shapeOk. induction shape as [|[k p] r IH]; intros H;
    cbn [forallb]; [reflexivity|].
  rewrite get_knownMembers by (apply H; simpl; apply elem_of_cons; auto).
  rewrite IH; [reflexivity|].
  intros x Hx. apply H. simpl. apply elem_of_cons. auto.
Qed.

Lemma extras_known shape unknown fs :
  forallb (extraOk shape unknown) (knownMembers (keys shape) fs) = true.
Proof.
  induction fs as [|[k x] r IH]; simpl; [reflexivity|].
  destruct (bool_decide (k ∈ keys shape)) eqn:E; simpl; [|exact IH].
  rewrite hasKey_keys, E, IH. reflexivity.
Qed.

Lemma extras_strict shape fs k :
  k ∈ keys fs -> k ∉ keys shape -> forallb (extraOk shape Strict) fs = false.
Proof.
  intros Hin Hout. induction fs as [|[k0 x] r IH]; simpl in *.
  - apply elem_of_nil in Hin. contradiction.
  - apply elem_of_cons in Hin as [<-|Hin].
    + rewrite hasKey_keys, bool_decide_eq_false_2 by exact Hout. reflexivity.
    + rewrite IH by exact Hin. apply andb_false_r.
Qed.

Lemma extras_passthrough shape fs :
  forallb (extraOk shape Passthrough) fs = true.
Proof.
  induction fs as [|[k x] r IH]; simpl; [reflexivity|].
  rewrite orb_true_r. exact IH.
Qed.

Lemma extras_catchall shape c fs :
  forallb (extraOk shape (Catchall c)) fs
  = forallb (fun kv => accepts c (snd kv)) (unknownMembers (keys shape) fs).
Proof.
  induction fs as [|[k x] r IH]; simpl; [reflexivity|].
  rewrite hasKey_keys, IH.
  destruct (bool_decide (k ∈ keys shape)); reflexivity.
Qed.

Lemma accepts_known shape unknown fs :
  accepts (ZObject shape unknown) (Obj (knownMembers (keys shape) fs))
  = shapeOk shape fs.
Proof.
  rewrite accepts_object, extras_known, andb_true_r.
  apply shapeOk_known. auto.
Qed.

(** C1.  An object-shaped node compiled under input mode.  Without (a
    truthy) [additionalProperties], an argument object with a member the
    schema does not declare is rejected.  With [additionalProperties:
    true] the undeclared members do not matter.  With any other truthy
    [additionalProperties], the undeclared members are checked against
    the validator compiled from it.  The example of the design document:
    the object with a required string [id] rejects an extra member and a
    missing [id], and accepts the [id] alone. *)
Theorem input_object_unknown_properties
    spec schema seen depth resolved seen1 e :
  (depth <= MAX_SCHEMA_DEPTH)%nat ->
  derefSchema spec schema seen depth = Ok (resolved, seen1) ->
  truthy (get resolved "oneOf") = false ->
  truthy (get resolved "anyOf") = false ->
  objectBranch resolved = true ->
  schemaToZodExpression spec schema Input depth seen = Ok e ->
  (truthy (get resolved "additionalProperties") = false ->
   forall fs k, k ∈ keys fs -> k ∉ declaredKeys resolved ->
     accepts e (Obj fs) = false)
  /\ (get resolved "additionalProperties" = Bool true ->
      forall fs,
        accepts e (Obj fs)
        = accepts e (Obj (knownMembers (declaredKeys resolved) fs)))
  /\ (truthy (get resolved "additionalProperties") = true ->
      strictEq (get resolved "additionalProperties") (Bool true) = false ->
      exists c,
        schemaToZodExpression spec (get resolved "additionalProperties")
          Input (depth + 1) seen1 = Ok c
        /\ forall fs,
             accepts e (Obj fs)
             = accepts e (Obj (knownMembers (declaredKeys resolved) fs))
               && forallb (fun kv => accepts c (snd kv))
                    (unknownMembers (declaredKeys resolved) fs))
  /\ (schemaToZodExpression (Obj []) idSchema Input 0 ∅
        = Ok (ZObject [("id", ZString)] Strict)
      /\ accepts (ZObject [("id", ZString)] Strict)
           (Obj [("id", Str "x"); ("extra", Num 1)]) = false
      /\ accepts (ZObject [("id", ZString)] Strict) (Obj []) = false
      /\ accepts (ZObject [("id", ZString)] Strict) (Obj [("id", Str "x")])
         = true).
Proof.
  intros Hd Hderef Hone Hany Hobj Hc.
  destruct (compile_object _ _ _ _ _ _ _ _ Hd Hderef Hone Hany Hobj Hc)
    as (required & entries & unknown & _ & Hkeys & _ & -> & Hunk).
  simpl in Hunk. rewrite <- Hkeys.
  split; [|split; [|split]].
  - intros Hap fs k Hin Hout. rewrite Hap in Hunk. subst unknown.
    rewrite accepts_decorate by reflexivity.
    rewrite accepts_object, (extras_strict _ _ k Hin Hout).
    apply andb_false_r.
  - intros Hap fs. rewrite Hap in Hunk. simpl in Hunk. subst unknown.
    rewrite !accepts_decorate by reflexivity.
    rewrite accepts_known, accepts_object, extras_passthrough.
    apply andb_true_r.
  - intros Hap Hne. rewrite Hap, Hne in Hunk.
    destruct Hunk as (c & Hcc & ->). exists c. split; [exact Hcc|].
    intros fs. rewrite !accepts_decorate by reflexivity.
    rewrite accepts_known, accepts_object, extras_catchall. reflexivity.
  - repeat split; vm_compute; reflexivity.
Qed.

Lemma input_object_unknown_properties_witness :
  accepts (ZObject [("id", ZString)] Strict)
    (Obj [("id", Str "x"); ("extra", Num 1)]) = false.
Proof.
  destruct (input_object_unknown_properties (Obj []) idSchema ∅ 0 idSchema ∅
              (ZObject [("id", ZString)] Strict)) as (H & _).
  - unfold MAX_SCHEMA_DEPTH. lia.
  - vm_compute. reflexivity.
  - reflexivity.
  - reflexivity.
  - reflexivity.
  - vm_compute. reflexivity.
  - apply (H eq_refl _ "extra").
    + simpl. rewrite !elem_of_cons. auto.
    + vm_compute. notKey.
Defined.

Lemma get_objSet k k' v fs :
  get (Obj (objSet k' v fs)) k = if (k' =? k)%string then v else get (Obj fs) k.
Proof.
  simpl. rewrite assoc_objSet. destruct (k' =? k)%string; reflexivity.
Qed.

Lemma knownMembers_objSet declared k v fs :
  k ∉ declared ->
  knownMembers declared (objSet k v fs) = knownMembers declared fs.
Proof.
  intros Hk. induction fs as [|[k0 v0] r IH]; simpl.
  - rewrite bool_decide_eq_false_2 by exact Hk. reflexivity.
  - destruct (k0 =? k)%string eqn:E; simpl.
    + apply String.eqb_eq in E. subst k0.
      rewrite bool_decide_eq_false_2 by exact Hk. reflexivity.
    + rewrite IH. reflexivity.
Qed.

(** Under output mode a property outside the required set takes null. *)
Lemma shapeOk_null required key shape fs :
  Forall (fun kp => exists p,
            snd kp = wrapProperty Output required (fst kp) p) shape ->
  setHas required key = false ->
  shapeOk shape fs = true ->
  shapeOk shape (objSet key Null fs) = true.
Proof.
  unfold shapeOk. intros Hall Hreq.
  induction Hall as [|[k p] r [q Hq] _ IH]; cbn [forallb]; [reflexivity|].
  intros [H1 H2]%andb_prop. rewrite (IH H2), andb_true_r.
  rewrite get_objSet. destruct (key =? k)%string eqn:E; [|exact H1].
  apply String.eqb_eq in E. subst k. simpl in Hq.
  unfold wrapProperty in Hq. rewrite Hreq in Hq. subst p. reflexivity.
Qed.

(** C2.  An object-shaped node compiled under output mode.  The members
    the schema does not declare never matter: adding one, or changing
    one, leaves the verdict as it is.  A property outside the required
    set takes an explicit null.  The example of the design document: the
    object with a required string [id] accepts an extra member. *)
Theorem output_object_open spec schema seen depth resolved seen1 e :
  (depth <= MAX_SCHEMA_DEPTH)%nat ->
  derefSchema spec schema seen depth = Ok (resolved, seen1) ->
  truthy (get resolved "oneOf") = false ->
  truthy (get resolved "anyOf") = false ->
  objectBranch resolved = true ->
  schemaToZodExpression spec schema Output depth seen = Ok e ->
  (forall fs,
     accepts e (Obj fs)
     = accepts e (Obj (knownMembers (declaredKeys resolved) fs)))
  /\ (forall fs k x, k ∉ declaredKeys resolved ->
        accepts e (Obj (objSet k x fs)) = accepts e (Obj fs))
  /\ (exists required,
        requiredSet (get resolved "required") = Ok required
        /\ forall key fs, setHas required key = false ->
             accepts e (Obj fs) = true ->
             accepts e (Obj (objSet key Null fs)) = true)
  /\ (schemaToZodExpression (Obj []) idSchema Output 0 ∅
        = Ok (ZObject [("id", ZString)] Passthrough)
      /\ accepts (ZObject [("id", ZString)] Passthrough)
           (Obj [("id", Str "x"); ("extra", Bool true)]) = true).
Proof.
  intros Hd Hderef Hone Hany Hobj Hc.
  destruct (compile_object _ _ _ _ _ _ _ _ Hd Hderef Hone Hany Hobj Hc)
    as (required & entries & unknown & Hreq & Hkeys & Hall & -> & ->).
  rewrite <- Hkeys.
  assert (Hopen : forall fs,
    accepts (decorate resolved (ZObject entries Passthrough)) (Obj fs)
    = shapeOk entries fs).
  { intros fs. rewrite accepts_decorate by reflexivity.
    rewrite accepts_object, extras_passthrough. apply andb_true_r. }
  split; [|split; [|split]].
  - intros fs. rewrite !Hopen. symmetry. apply shapeOk_known. auto.
  - intros fs k x Hk. rewrite !Hopen.
    rewrite <- (shapeOk_known (keys entries) entries (objSet k x fs)) by auto.
    rewrite knownMembers_objSet by exact Hk.
    apply shapeOk_known. auto.
  - exists required. split; [exact Hreq|].
    intros key fs Hkey. rewrite !Hopen. eapply shapeOk_null; eauto.
  - split; vm_compute; reflexivity.
Qed.

Lemma output_object_open_witness :
  accepts
    (ZObject [("id", ZString); ("title", ZNullable (ZOptional ZString))]
       Passthrough)
    (Obj (objSet "title" Null (objSet "extra" (Num 1) [("id", Str "x")])))
  = true.
Proof.
  destruct (output_object_open (Obj []) optionalTitle ∅ 0 optionalTitle ∅
              (ZObject [("id", ZString); ("title", ZNullable (ZOptional ZString))]
                 Passthrough)) as (_ & Hextra & (required & Hreq & Hnull) & _).
  - unfold MAX_SCHEMA_DEPTH. lia.
  - vm_compute. reflexivity.
  - reflexivity.
  - reflexivity.
  - reflexivity.
  - vm_compute. reflexivity.
  - apply Hnull.
    + vm_compute in Hreq. injection Hreq as <-. reflexivity.
    + rewrite Hextra; [reflexivity|].
      vm_compute. notKey.
Defined.

(** ** Enumerations on string nodes *)



(** What compiling a node gives, once it is resolved and is no union. *)
Lemma compile_typed spec schema options depth seen resolved seen1 :
  (depth <= MAX_SCHEMA_DEPTH)%nat ->
  derefSchema spec schema seen depth = Ok (resolved, seen1) ->
  truthy (get resolved "oneOf") = false ->
  truthy (get resolved "anyOf") = false ->
  schemaToZodExpression spec schema options depth seen
  = (let* expression :=
       typedExpression (selfCompile spec options) options resolved depth seen1 in
     Ok (decorate resolved expression)).
Proof.
  intros Hd Hderef Hone Hany.
  rewrite schemaToZodExpression_eq. unfold schemaToZodExpression_body.
  rewrite Hderef. simpl fst. simpl snd. simpl bind.
  rewrite (derefSchema_truthy _ _ _ _ _ _ Hderef).
  apply Nat.ltb_ge in Hd. rewrite Hd, Hone, Hany. reflexivity.
Qed.






(** ** Tool names *)

Lemma splitCamel_boundaries s : splitCamel s = insertBoundaries lowerOrDigit s.
Proof.
  induction s as [|a r IH]; simpl; [reflexivity|].
  destruct r as [|b r']; [reflexivity|].
  unfold lowerOrDigit at 1. rewrite IH. reflexivity.
Qed.

Lemma insertBoundaries_lower s :
  digitBeforeUpper s = false ->
  insertBoundaries lowerOrDigit s = insertBoundaries isLower s.
Proof.
  induction s as [|a r IH]; simpl; [reflexivity|].
  destruct r as [|b r']; [reflexivity|].
  intros [H1 H2]%orb_false_elim. rewrite (IH H2).
  unfold lowerOrDigit at 1.
  destruct (isLower a); simpl; [reflexivity|].
  rewrite H1. reflexivity.
Qed.

Lemma replaceDots_digitBeforeUpper s :
  digitBeforeUpper (replaceDots s) = digitBeforeUpper s.
Proof.
  unfold replaceDots.
  assert (Hd : forall c, isDigit (if (c =? ".")%char then "_"%char else c)
                         = isDigit c).
  { intros c. destruct (c =? ".")%char eqn:E; [|reflexivity].
    apply Ascii.eqb_eq in E. subst c. reflexivity. }
  assert (Hu : forall c, isUpper (if (c =? ".")%char then "_"%char else c)
                         = isUpper c).
  { intros c. destruct (c =? ".")%char eqn:E; [|reflexivity].
    apply Ascii.eqb_eq in E. subst c. reflexivity. }
  induction s as [|a r IH]; [reflexivity|].
  destruct r as [|b r']; [reflexivity|].
  change (digitBeforeUpper
            (String (if (a =? ".")%char then "_"%char else a)
               (mapString (fun c => if (c =? ".")%char then "_"%char else c)
                  (String b r')))
          = digitBeforeUpper (String a (String b r'))).
  cbn [digitBeforeUpper mapString] in *.
  rewrite Hd, Hu. f_equal. exact IH.
Qed.

(** What [generateTool] puts in a tool. *)
Lemma generateTool_ok spec pathKey operation t :
  generateTool spec pathKey operation = Ok t ->
  exists identifier,
    operationIdOf pathKey operation = Str identifier
    /\ name t = "outline_" +:+ toSnakeCase identifier
    /\ methodName t = stripLeadingSlash pathKey
    /\ annotations t
       = {| readOnlyHint := test READ_ONLY_PATTERN identifier;
            destructiveHint := test DESTRUCTIVE_PATTERN identifier;
            idempotentHint := test READ_ONLY_PATTERN identifier;
            openWorldHint := true |}.
Proof.
  unfold generateTool.
  destruct (operationIdOf pathKey operation) as [| | | |identifier| | | |];
    try discriminate.
  destruct (buildInputSchemaExpression spec operation); simpl; [|discriminate].
  destruct (buildOutputSchemaExpression spec operation); simpl; [|discriminate].
  destruct (hasPagination spec operation); simpl; [|discriminate].
  intros [= <-]. exists identifier. auto.
Qed.

(** C7, as the code has it.  The name of a tool is the prefix [outline_]
    and the snake case of the identifier, which is the operation's
    [operationId] or else the path without its leading slash.  The snake
    case is the described chain of replacements, with two differences: a
    leading slash is taken off the identifier too, and the underscore goes
    in after a digit as well as after a lower-case letter.  On an
    identifier without a leading slash and without a digit before an
    upper-case letter, it is the described chain as it stands. *)
Theorem tool_name_derivation spec pathKey operation t :
  generateTool spec pathKey operation = Ok t ->
  (exists identifier,
     operationIdOf pathKey operation = Str identifier
     /\ (nullish (get operation "operationId") = true ->
         identifier = stripLeadingSlash pathKey)
     /\ (nullish (get operation "operationId") = false ->
         get operation "operationId" = Str identifier)
     /\ name t
        = "outline_"
            +:+ describedSnakeCase lowerOrDigit (stripLeadingSlash identifier))
  /\ (forall identifier,
        stripLeadingSlash identifier = identifier ->
        digitBeforeUpper identifier = false ->
        toSnakeCase identifier = describedSnakeCase isLower identifier)
  /\ nameOf (generateTool (Obj []) "/documents.info"
               (Obj [("operationId", Str "documents.info")]))
     = Some "outline_documents_info"
  /\ nameOf (generateTool (Obj []) "/auth.info" (Obj [("summary", Str "Auth")]))
     = Some "outline_auth_info".
Proof.
  intros Hok.
  destruct (generateTool_ok _ _ _ _ Hok) as (identifier & Hid & Hname & _).
  split; [|split; [|split; vm_compute; reflexivity]].
  - exists identifier. split; [exact Hid|]. repeat split.
    + intros Hn. unfold operationIdOf, orElse in Hid. rewrite Hn in Hid.
      congruence.
    + intros Hn. unfold operationIdOf, orElse in Hid. rewrite Hn in Hid.
      exact Hid.
    + rewrite Hname. unfold toSnakeCase, describedSnakeCase.
      rewrite splitCamel_boundaries. reflexivity.
  - intros i Hs Hd. unfold toSnakeCase, describedSnakeCase.
    rewrite Hs, splitCamel_boundaries, insertBoundaries_lower; [reflexivity|].
    rewrite replaceDots_digitBeforeUpper. exact Hd.
Qed.

Lemma tool_name_derivation_witness :
  exists identifier,
    operationIdOf "/documents.info" (Obj [("operationId", Str "documents.info")])
    = Str identifier
    /\ "outline_documents_info"
       = "outline_"
           +:+ describedSnakeCase lowerOrDigit (stripLeadingSlash identifier).
Proof.
  destruct (tool_name_derivation (Obj []) "/documents.info"
              (Obj [("operationId", Str "documents.info")])
              {| name := "outline_documents_info";
                 title := Str "outline_documents_info";
                 description := Str EmptyString;
                 methodName := "documents.info";
                 inputSchema := ZObject [] Strict;
                 outputSchema := None;
                 annotations := {| readOnlyHint := true;
                                   destructiveHint := false;
                                   idempotentHint := true;
                                   openWorldHint := true |} |})
    as ((identifier & Hid & _ & _ & Hname) & _).
  - vm_compute. reflexivity.
  - exists identifier. split; [exact Hid | exact Hname].
Defined.

(** C7, as stated, fails on an identifier with a digit before an
    upper-case letter, and on one with a leading slash. *)
Lemma tool_name_described_differs :
  nameOf (generateTool (Obj []) "/keys" (Obj [("operationId", Str "apiV2Keys.list")]))
    = Some "outline_api_v2_keys_list"
  /\ describedToolName isLower "/keys" (Obj [("operationId", Str "apiV2Keys.list")])
    = "outline_api_v2keys_list"
  /\ nameOf (generateTool (Obj []) "/keys" (Obj [("operationId", Str "/keys.list")]))
    = Some "outline_keys_list"
  /\ describedToolName isLower "/keys" (Obj [("operationId", Str "/keys.list")])
    = "outline__keys_list".
Proof. repeat split; vm_compute; reflexivity. Qed.

(** ** Annotations *)

(** C8.  The annotations of a tool are read off its identifier (the
    [operationId], or else the path without its leading slash): read-only
    and idempotent are both the match of the read words, destructive is
    the match of the destructive words, open-world is true.  The match
    ignores case.  One identifier can match both sets, and then read-only
    and destructive are both true. *)
Theorem annotations_derivation spec pathKey operation t :
  generateTool spec pathKey operation = Ok t ->
  (exists identifier,
     operationIdOf pathKey operation = Str identifier
     /\ readOnlyHint (annotations t) = test READ_ONLY_PATTERN identifier
     /\ idempotentHint (annotations t) = test READ_ONLY_PATTERN identifier
     /\ destructiveHint (annotations t) = test DESTRUCTIVE_PATTERN identifier
     /\ openWorldHint (annotations t) = true)
  /\ (forall pattern a b,
        toLowerCase a = toLowerCase b -> test pattern a = test pattern b)
  /\ annotationsOf (generateTool (Obj []) "/collections.list"
                      (Obj [("operationId", Str "collections.list")]))
     = Some {| readOnlyHint := true; destructiveHint := false;
               idempotentHint := true; openWorldHint := true |}
  /\ annotationsOf (generateTool (Obj []) "/documents.delete"
                      (Obj [("operationId", Str "documents.delete")]))
     = Some {| readOnlyHint := false; destructiveHint := true;
               idempotentHint := false; openWorldHint := true |}
  /\ annotationsOf (generateTool (Obj []) "/views.delete"
                      (Obj [("operationId", Str "Views.Delete")]))
     = Some {| readOnlyHint := true; destructiveHint := true;
               idempotentHint := true; openWorldHint := true |}.
Proof.
  intros Hok.
  destruct (generateTool_ok _ _ _ _ Hok) as (identifier & Hid & _ & _ & Hann).
  split; [|split; [|repeat split; vm_compute; reflexivity]].
  - exists identifier. rewrite Hann. simpl. auto.
  - intros pattern a b Hab. unfold test. rewrite Hab. reflexivity.
Qed.

Lemma annotations_derivation_witness :
  exists identifier,
    operationIdOf "/documents.delete" (Obj []) = Str identifier
    /\ false = test READ_ONLY_PATTERN identifier
    /\ true = test DESTRUCTIVE_PATTERN identifier.
Proof.
  destruct (annotations_derivation (Obj []) "/documents.delete" (Obj [])
              {| name := "outline_documents_delete";
                 title := Str "outline_documents_delete";
                 description := Str EmptyString;
                 methodName := "documents.delete";
                 inputSchema := ZObject [] Strict;
                 outputSchema := None;
                 annotations := {| readOnlyHint := false;
                                   destructiveHint := true;
                                   idempotentHint := false;
                                   openWorldHint := true |} |})
    as ((identifier & Hid & Hr & _ & Hd & _) & _).
  - vm_compute. reflexivity.
  - exists identifier. auto.
Defined.

(** ** The tools of a document *)

Lemma mapResult_names spec l : forall tools,
  mapResult (fun '(pathKey, operation) => generateTool spec pathKey operation) l
  = Ok tools ->
  map name tools
  = map (fun po => "outline_" +:+ toSnakeCase (identifierOf po)) l.
Proof.
  induction l as [|[p o] r IH]; intros tools; simpl.
  - intros [= <-]. reflexivity.
  - destruct (generateTool spec p o) as [t|e] eqn:Ht; simpl; [|discriminate].
    destruct (mapResult _ r) as [ts|e]; simpl; [|discriminate].
    intros [= <-]. simpl. rewrite (IH ts eq_refl). f_equal.
    destruct (generateTool_ok _ _ _ _ Ht) as (i & Hi & Hn & _).
    unfold identifierOf. simpl. rewrite Hi, Hn. reflexivity.
Qed.

Lemma NoDup_prefix (prefix : string) (l : list string) :
  NoDup (map (String.append prefix) l) <-> NoDup l.
Proof.
  assert (Hinj : Inj (=) (=) (String.append prefix)).
  { intros a b. induction prefix as [|c p IH]; simpl; [auto|].
    intros [= H]. auto. }
  split.
  - apply (NoDup_fmap_1 (String.append prefix)).
  - apply (NoDup_fmap_2 (String.append prefix)).
Qed.

(** C10, as the code has it.  The names of the generated tools are, in
    order, those derived from the operations of the document: the prefix
    and the snake case of the identifier, which is the [operationId] or
    else the path.  They are pairwise distinct exactly when the snake
    cases of the identifiers are; the generator does not make them so. *)
Theorem tool_names_derived spec tools :
  generateTools spec = Ok tools ->
  map name tools
  = map (fun po => "outline_" +:+ toSnakeCase (identifierOf po))
      (operationsOf spec)
  /\ (NoDup (map name tools)
      <-> NoDup (map (fun po => toSnakeCase (identifierOf po))
                   (operationsOf spec))).
Proof.
  unfold generateTools. destruct (nullish spec); [discriminate|].
  intros H. apply mapResult_names in H. split; [exact H|].
  rewrite H.
  rewrite <- (NoDup_prefix "outline_"
                (map (fun po => toSnakeCase (identifierOf po))
                   (operationsOf spec))).
  rewrite map_map. reflexivity.
Qed.

Lemma tool_names_derived_witness :
  namesOf (generateTools twoPaths)
  = Some (map (fun po => "outline_" +:+ toSnakeCase (identifierOf po))
            (operationsOf twoPaths)).
Proof.
  destruct (generateTools twoPaths) as [tools|e] eqn:E.
  - simpl. f_equal. apply (tool_names_derived twoPaths tools E).
  - vm_compute in E. discriminate.
Defined.

(** C10, as stated, fails: two methods on one path without identifiers,
    and two paths that differ in a dot, give two tools of one name. *)
Lemma tool_names_repeat :
  namesOf (generateTools twoMethods)
    = Some ["outline_users_info"; "outline_users_info"]
  /\ namesOf (generateTools twoPaths)
    = Some ["outline_users_info"; "outline_users_info"].
Proof. split; vm_compute; reflexivity. Qed.

(** ** Dangling references *)

Lemma isIn_object current part :
  truthy current && typeofObject current && isIn part current
  = isIn part current.
Proof.
  destruct current; try reflexivity;
    unfold isIn; simpl; rewrite ?andb_false_r; reflexivity.
Qed.

Lemma walkParts_lookup ref parts : forall current,
  walkParts ref current parts
  = match lookupParts current parts with
    | Some v => Ok v
    | None => Throw (Unresolvable ref)
    end.
Proof.
  induction parts as [|p rest IH]; intros current; simpl; [reflexivity|].
  rewrite isIn_object. destruct (isIn p current); [apply IH | reflexivity].
Qed.

Lemma resolveRef_lookup spec ref :
  resolveRef spec (Str ref)
  = if startsWithHashSlash ref then
      match lookupPointer spec ref with
      | Some v => Ok v
      | None => Throw (Unresolvable ref)
      end
    else Throw (Unsupported ref).
Proof.
  unfold resolveRef, lookupPointer. rewrite walkParts_lookup.
  destruct (startsWithHashSlash ref); reflexivity.
Qed.



(** *** The calls of a compilation *)










Lemma reaches_trans spec c1 c2 c3 :
  reaches spec c1 c2 -> reaches spec c2 c3 -> reaches spec c1 c3.
Proof.
  induction 1 as [|c c1 c2 Hc _ IH]; [auto|].
  intros H. eapply reaches_step; [exact Hc | auto].
Qed.














Example nested_dangling_aborts :
  main nestedDangling = Exit1 (Unresolvable missingRef).
Proof. vm_compute. reflexivity. Qed.

(** A segment that names an inherited member is found: the reference
    resolves to the built-in function, which compiles as a schema
    without a type, and the run writes its tool. *)
Example inherited_member_resolves :
  resolveRef inheritedRequest (Str "#/components/schemas/constructor")
    = Ok (Builtin ObjectPrototype "constructor")
  /\ resolveRef inheritedRequest (Str "#/components/schemas/constructor/name")
    = Throw (Unresolvable "#/components/schemas/constructor/name")
  /\ resolveRef inheritedRequest (Str "#/paths/__proto__/__proto__") = Ok Null
  /\ buildInputSchemaExpression inheritedRequest
       (get (get (get inheritedRequest "paths") "/documents.create") "post")
    = Ok (ZObject [("payload", ZAny)] Strict)
  /\ namesOf (generateTools inheritedRequest)
    = Some ["outline_documents_create"].
Proof. repeat split; vm_compute; reflexivity. Qed.



(** * Further properties *)

(** ** The alphabet of [toSnakeCase] *)

(** A case for each of the 256 characters. *)
Ltac byteCases c := destruct c as [[] [] [] [] [] [] [] []].

Lemma toLower_word c : isWord c = true -> isSnakeChar (toLower c) = true.
Proof. byteCases c; vm_compute; intros H; first [reflexivity | discriminate]. Qed.

Lemma toLower_underscore c : isUnderscore (toLower c) = isUnderscore c.
Proof. byteCases c; reflexivity. Qed.

Lemma snakeChar_facts c :
  isSnakeChar c = true ->
  isUpper c = false /\ isWord c = true /\ toLower c = c
  /\ (c =? ".")%char = false /\ (c =? "/")%char = false.
Proof.
  byteCases c; vm_compute; intros H;
    first [discriminate | repeat split; reflexivity].
Qed.

Lemma allChars_mapString (p q : ascii -> bool) f s :
  (forall c, p c = true -> q (f c) = true) ->
  allChars p s = true -> allChars q (mapString f s) = true.
Proof.
  intros Hf. induction s as [|c r IH]; simpl; [reflexivity|].
  intros [Hc Hr]%andb_prop. rewrite (Hf c Hc), (IH Hr). reflexivity.
Qed.

Lemma replaceNonWord_word s : allChars isWord (replaceNonWord s) = true.
Proof.
  unfold replaceNonWord. induction s as [|c r IH]; simpl; [reflexivity|].
  rewrite IH, andb_true_r. destruct (isWord c) eqn:E; [exact E | reflexivity].
Qed.

Lemma collapseUnderscores_cons a b r :
  collapseUnderscores (String a (String b r))
  = if isUnderscore a && isUnderscore b
    then collapseUnderscores (String b r)
    else String a (collapseUnderscores (String b r)).
Proof. reflexivity. Qed.

Lemma splitCamel_cons a b r :
  splitCamel (String a (String b r))
  = if (isLower a || isDigit a) && isUpper b
    then String a (String "_" (splitCamel (String b r)))
    else String a (splitCamel (String b r)).
Proof. reflexivity. Qed.

Lemma noDoubleUnderscore_cons a b r :
  noDoubleUnderscore (String a (String b r))
  = negb (isUnderscore a && isUnderscore b) && noDoubleUnderscore (String b r).
Proof. reflexivity. Qed.

Lemma collapseUnderscores_allChars p s :
  allChars p s = true -> allChars p (collapseUnderscores s) = true.
Proof.
  induction s as [|a r IH]; [reflexivity|].
  intros [Ha Hr]%andb_prop. specialize (IH Hr).
  destruct r as [|b r']; [simpl; rewrite Ha; reflexivity|].
  rewrite collapseUnderscores_cons.
  destruct (isUnderscore a && isUnderscore b); [exact IH|].
  change (p a && allChars p (collapseUnderscores (String b r')) = true).
  rewrite Ha. exact IH.
Qed.

Lemma collapseUnderscores_head a r :
  exists t, collapseUnderscores (String a r) = String a t.
Proof.
  revert a. induction r as [|b r' IH]; intros a; [eexists; reflexivity|].
  rewrite collapseUnderscores_cons.
  destruct (isUnderscore a && isUnderscore b) eqn:E; [|eexists; reflexivity].
  apply andb_prop in E as [Ea Eb].
  unfold isUnderscore in Ea, Eb. apply Ascii.eqb_eq in Ea, Eb. subst a b.
  apply IH.
Qed.

Lemma collapseUnderscores_single s :
  noDoubleUnderscore (collapseUnderscores s) = true.
Proof.
  induction s as [|a r IH]; [reflexivity|].
  destruct r as [|b r']; [reflexivity|].
  rewrite collapseUnderscores_cons.
  destruct (isUnderscore a && isUnderscore b) eqn:E; [exact IH|].
  destruct (collapseUnderscores_head b r') as [t Ht].
  rewrite Ht in IH |- *. rewrite noDoubleUnderscore_cons.
  rewrite E, IH. reflexivity.
Qed.

Lemma noDoubleUnderscore_mapString f s :
  (forall c, isUnderscore (f c) = isUnderscore c) ->
  noDoubleUnderscore (mapString f s) = noDoubleUnderscore s.
Proof.
  intros Hf. induction s as [|a r IH]; [reflexivity|].
  destruct r as [|b r']; [reflexivity|].
  assert (Ea : mapString f (String a (String b r'))
               = String (f a) (mapString f (String b r'))) by reflexivity.
  assert (Eb : mapString f (String b r') = String (f b) (mapString f r'))
    by reflexivity.
  rewrite Ea. rewrite Eb in IH |- *.
  rewrite !noDoubleUnderscore_cons, IH, !Hf. reflexivity.
Qed.

Lemma toSnakeCase_alphabet s :
  allChars isSnakeChar (toSnakeCase s) = true
  /\ noDoubleUnderscore (toSnakeCase s) = true.
Proof.
  unfold toSnakeCase, toLowerCase. split.
  - apply (allChars_mapString isWord); [apply toLower_word|].
    apply collapseUnderscores_allChars, replaceNonWord_word.
  - rewrite noDoubleUnderscore_mapString by apply toLower_underscore.
    apply collapseUnderscores_single.
Qed.

Lemma allChars_append p a b :
  allChars p (a +:+ b) = allChars p a && allChars p b.
Proof.
  induction a as [|c r IH]; simpl; [reflexivity|].
  rewrite IH, andb_assoc. reflexivity.
Qed.

(** X1.  The name of every generated tool is made of lower-case
    letters, digits and underscores only, whatever the identifier holds;
    and the snake case of an identifier never has two underscores in a
    row. *)
Theorem tool_name_alphabet spec pathKey operation t :
  generateTool spec pathKey operation = Ok t ->
  allChars isSnakeChar (name t) = true
  /\ forall identifier,
       allChars isSnakeChar (toSnakeCase identifier) = true
       /\ noDoubleUnderscore (toSnakeCase identifier) = true.
Proof.
  intros Hok. destruct (generateTool_ok _ _ _ _ Hok) as (i & _ & Hn & _).
  split; [|apply toSnakeCase_alphabet].
  rewrite Hn, allChars_append.
  rewrite (proj1 (toSnakeCase_alphabet i)). reflexivity.
Qed.

Lemma tool_name_alphabet_witness :
  allChars isSnakeChar "outline_file_operations_delete_all" = true.
Proof.
  apply (tool_name_alphabet (Obj []) "/x"
           (Obj [("operationId", Str "fileOperations.deleteAll")])
           {| name := "outline_file_operations_delete_all";
              title := Str "outline_file_operations_delete_all";
              description := Str EmptyString;
              methodName := "x";
              inputSchema := ZObject [] Strict;
              outputSchema := None;
              annotations := {| readOnlyHint := false;
                                destructiveHint := true;
                                idempotentHint := false;
                                openWorldHint := true |} |}).
  vm_compute. reflexivity.
Defined.

(** *** A name is a fixed point *)

Lemma mapString_id f s :
  (forall c, isSnakeChar c = true -> f c = c) ->
  allChars isSnakeChar s = true -> mapString f s = s.
Proof.
  intros Hf. induction s as [|c r IH]; simpl; [reflexivity|].
  intros [Hc Hr]%andb_prop. rewrite (Hf c Hc), (IH Hr). reflexivity.
Qed.

Lemma splitCamel_snake s : allChars isSnakeChar s = true -> splitCamel s = s.
Proof.
  induction s as [|a r IH]; [reflexivity|].
  intros [Ha Hr]%andb_prop. specialize (IH Hr).
  destruct r as [|b r']; [reflexivity|].
  rewrite splitCamel_cons. apply andb_prop in Hr as [Hb _].
  destruct (snakeChar_facts b Hb) as (-> & _).
  rewrite andb_false_r, IH. reflexivity.
Qed.

Lemma collapseUnderscores_id s :
  noDoubleUnderscore s = true -> collapseUnderscores s = s.
Proof.
  induction s as [|a r IH]; [reflexivity|].
  destruct r as [|b r']; [reflexivity|].
  rewrite noDoubleUnderscore_cons, collapseUnderscores_cons.
  intros [H1 H2]%andb_prop. apply negb_true_iff in H1.
  rewrite H1, (IH H2). reflexivity.
Qed.

Lemma stripLeadingSlash_snake s :
  allChars isSnakeChar s = true -> stripLeadingSlash s = s.
Proof.
  destruct s as [|c r]; [reflexivity|].
  intros [Hc _]%andb_prop.
  destruct (snakeChar_facts c Hc) as (_ & _ & _ & _ & Hs).
  apply Ascii.eqb_neq in Hs.
  unfold stripLeadingSlash. byteCases c; first [reflexivity | contradiction].
Qed.

(** X2.  A generated snake case is a fixed point of [toSnakeCase]:
    deriving a name from a derived name changes nothing. *)
Theorem toSnakeCase_idempotent identifier :
  toSnakeCase (toSnakeCase identifier) = toSnakeCase identifier.
Proof.
  destruct (toSnakeCase_alphabet identifier) as [Ha Hu].
  remember (toSnakeCase identifier) as t eqn:Ht. clear Ht identifier.
  unfold toSnakeCase, replaceDots, replaceNonWord, toLowerCase.
  rewrite (stripLeadingSlash_snake _ Ha).
  rewrite (mapString_id _ t) by
    (try exact Ha; intros c Hc;
     destruct (snakeChar_facts c Hc) as (_ & _ & _ & -> & _); reflexivity).
  rewrite (splitCamel_snake _ Ha).
  rewrite (mapString_id _ t) by
    (try exact Ha; intros c Hc;
     destruct (snakeChar_facts c Hc) as (_ & -> & _); reflexivity).
  rewrite (collapseUnderscores_id _ Hu).
  apply mapString_id; [|exact Ha].
  intros c Hc. destruct (snakeChar_facts c Hc) as (_ & _ & H & _). exact H.
Qed.

(** ** What [derefSchema] hands back *)

Lemma derefSchema_plain spec schema seen depth :
  truthy schema = true ->
  (depth <= MAX_SCHEMA_DEPTH)%nat ->
  truthy (get schema "$ref") = false ->
  truthy (get schema "allOf") = false ->
  derefSchema spec schema seen depth = Ok (schema, seen).
Proof.
  intros Ht Hd Hr Ha. rewrite derefSchema_eq. unfold derefSchema_body.
  apply Nat.ltb_ge in Hd. rewrite Ht, Hd, Hr, Ha. reflexivity.
Qed.

Lemma derefSchema_no_ref spec schema seen depth resolved seen' :
  derefSchema spec schema seen depth = Ok (resolved, seen') ->
  truthy (get resolved "$ref") = false
  /\ truthy (get resolved "allOf") = false.
Proof.
  remember (S MAX_SCHEMA_DEPTH - depth)%nat as k eqn:Hk.
  revert schema seen depth Hk resolved seen'.
  induction k as [|k IH]; intros schema seen depth Hk resolved seen';
    rewrite derefSchema_eq; unfold derefSchema_body.
  - destruct (truthy schema); simpl; [|intros [= <- _]; split; reflexivity].
    replace (MAX_SCHEMA_DEPTH <? depth)%nat with true
      by (symmetry; apply Nat.ltb_lt; lia).
    intros [= <- _]. split; reflexivity.
  - assert (Hrec : forall ref sn,
      bind (resolveRef spec ref)
        (fun target => derefSchema spec target sn (depth + 1))
      = Ok (resolved, seen') ->
      truthy (get resolved "$ref") = false
      /\ truthy (get resolved "allOf") = false).
    { intros ref sn. destruct (resolveRef spec ref) as [t|e]; simpl;
        [|discriminate].
      apply IH. lia. }
    destruct (truthy schema) eqn:Ht; simpl;
      [|intros [= <- _]; split; reflexivity].
    destruct (MAX_SCHEMA_DEPTH <? depth)%nat;
      [intros [= <- _]; split; reflexivity|].
    destruct (truthy (get schema "$ref")) eqn:Hr.
    + destruct (get schema "$ref") as [| | | |r| | | |]; try discriminate.
      destruct (bool_decide _); [intros [= <- _]; split; reflexivity|].
      apply (Hrec (Str r)).
    + destruct (truthy (get schema "allOf")) eqn:Ha.
      * unfold mergeAllOfSchemas. destruct (iterate _); [|discriminate].
        destruct (mergeLoop _ _ _ _ _ _); simpl; [|discriminate].
        intros [= <- _]. split; reflexivity.
      * intros [= <- _]. split; assumption.
Qed.

(** X3.  What [derefSchema] returns is resolved: it is neither a
    reference nor a composite, and resolving it again, within the depth
    bound and with any set of seen references, returns it as it is and
    leaves the set alone. *)
Theorem derefSchema_idempotent spec schema seen depth resolved seen' :
  derefSchema spec schema seen depth = Ok (resolved, seen') ->
  truthy (get resolved "$ref") = false
  /\ truthy (get resolved "allOf") = false
  /\ forall seen2 depth2, (depth2 <= MAX_SCHEMA_DEPTH)%nat ->
       derefSchema spec resolved seen2 depth2 = Ok (resolved, seen2).
Proof.
  intros H. destruct (derefSchema_no_ref _ _ _ _ _ _ H) as [Hr Ha].
  split; [exact Hr|]. split; [exact Ha|].
  intros seen2 depth2 Hd. apply derefSchema_plain; auto.
  eapply derefSchema_truthy. exact H.
Qed.

Lemma derefSchema_idempotent_witness :
  derefSchema sharedSpec idSchema {["#/components/schemas/Other"]} 8
  = Ok (idSchema, {["#/components/schemas/Other"]}).
Proof.
  destruct (derefSchema_idempotent sharedSpec baseRef ∅ 0 idSchema
              {["#/components/schemas/Base"]}) as (_ & _ & H).
  - vm_compute. reflexivity.
  - apply H. unfold MAX_SCHEMA_DEPTH. lia.
Defined.

(** ** The set of seen references *)

Lemma grows_refl spec seen : grows spec seen seen.
Proof. split; [reflexivity | auto]. Qed.

Lemma grows_trans spec s1 s2 s3 :
  grows spec s1 s2 -> grows spec s2 s3 -> grows spec s1 s3.
Proof.
  intros [H1 G1] [H2 G2]. split; [set_solver|].
  intros ref Hin. destruct (G2 ref Hin) as [Hin2|Hres]; [|auto].
  apply G1. exact Hin2.
Qed.

Lemma grows_add spec seen ref target :
  resolveRef spec (Str ref) = Ok target -> grows spec seen (seen ∪ {[ref]}).
Proof.
  intros Hres. split; [set_solver|].
  intros r [Hin|Hin]%elem_of_union; [auto|].
  apply elem_of_singleton in Hin. subst r. eauto.
Qed.

Section SeenGrows.
Variable spec : value.
Variable deref : value -> gset string -> nat -> result (value * gset string).
Variable depth : nat.
Hypothesis deref_grows : forall s sn r sn',
  deref s sn (depth + 1) = Ok (r, sn') -> grows spec sn sn'.

Lemma mergeLoop_grows schemas : forall props req seen props' req' seen',
  mergeLoop deref schemas props req seen depth = Ok (props', req', seen') ->
  grows spec seen seen'.
Proof.
  induction schemas as [|s rest IH]; intros props req seen props' req' seen';
    simpl.
  - intros [= _ _ <-]. apply grows_refl.
  - destruct (deref s seen (depth + 1)) as [[r sn]|e] eqn:E; simpl;
      [|discriminate].
    intros H. apply IH in H.
    eapply grows_trans; [eapply deref_grows; exact E | exact H].
Qed.

Lemma derefSchema_body_grows schema seen resolved seen' :
  derefSchema_body deref spec schema seen depth = Ok (resolved, seen') ->
  grows spec seen seen'.
Proof.
  unfold derefSchema_body.
  destruct (negb (truthy schema)); [intros [= _ <-]; apply grows_refl|].
  destruct (MAX_SCHEMA_DEPTH <? depth)%nat;
    [intros [= _ <-]; apply grows_refl|].
  destruct (truthy (get schema "$ref")).
  - destruct (get schema "$ref") as [| | | |r| | | |]; try discriminate.
    destruct (bool_decide _); [intros [= _ <-]; apply grows_refl|].
    destruct (resolveRef spec (Str r)) as [t|e] eqn:Hres; [|discriminate].
    cbn [bind]. intros H. apply deref_grows in H.
    eapply grows_trans; [eapply grows_add; exact Hres | exact H].
  - destruct (truthy (get schema "allOf")); [|intros [= _ <-]; apply grows_refl].
    unfold mergeAllOfSchemas. destruct (iterate _); [|discriminate].
    destruct (mergeLoop _ _ _ _ _ _) as [[[p q] sn]|e] eqn:E; simpl;
      [|discriminate].
    intros [= _ <-]. eapply mergeLoop_grows. exact E.
Qed.
End SeenGrows.

(** X4.  [derefSchema] only adds to the set of seen references, and
    every reference it adds is a pointer that was looked up in the
    document: a reference that fails to resolve is never left in a set
    that is handed back. *)
Theorem derefSchema_seen_grows spec schema seen depth resolved seen' :
  derefSchema spec schema seen depth = Ok (resolved, seen') ->
  seen ⊆ seen'
  /\ forall ref, ref ∈ seen' ->
       ref ∈ seen \/ exists target, resolveRef spec (Str ref) = Ok target.
Proof.
  change (derefSchema spec schema seen depth = Ok (resolved, seen') ->
          grows spec seen seen').
  remember (S MAX_SCHEMA_DEPTH - depth)%nat as k eqn:Hk.
  revert schema seen depth Hk resolved seen'.
  induction k as [|k IH]; intros schema seen depth Hk resolved seen';
    rewrite derefSchema_eq.
  - unfold derefSchema_body.
    destruct (negb (truthy schema)); [intros [= _ <-]; apply grows_refl|].
    replace (MAX_SCHEMA_DEPTH <? depth)%nat with true
      by (symmetry; apply Nat.ltb_lt; lia).
    intros [= _ <-]. apply grows_refl.
  - apply derefSchema_body_grows.
    intros s sn r sn'. apply IH. lia.
Qed.

Lemma derefSchema_seen_grows_witness :
  bool_decide
    (({["#/x"]} : gset string) ⊆ {["#/x"]} ∪ {["#/components/schemas/Base"]})
  = true.
Proof.
  apply bool_decide_eq_true_2.
  apply (derefSchema_seen_grows sharedSpec baseRef {["#/x"]} 0 idSchema
           ({["#/x"]} ∪ {["#/components/schemas/Base"]})).
  vm_compute. reflexivity.
Defined.

(** ** More on composites *)

Lemma derefSchema_composite spec schema branches seen depth :
  get schema "allOf" = Arr branches ->
  truthy (get schema "$ref") = false ->
  (depth <= MAX_SCHEMA_DEPTH)%nat ->
  derefSchema spec schema seen depth
  = (let* rs := resolveBranches (derefSchema spec) branches seen (depth + 1) in
     Ok (mergeResolved (fst rs), snd rs)).
Proof.
  intros Hall Href Hdepth.
  rewrite derefSchema_eq. unfold derefSchema_body.
  rewrite (get_allOf_truthy _ _ Hall). simpl negb. cbv iota.
  apply Nat.ltb_ge in Hdepth. rewrite Hdepth, Href, Hall. simpl truthy.
  cbv iota. apply mergeAllOfSchemas_resolved.
Qed.

Lemma NoDup_objSet {A : Type} k (v : A) l :
  NoDup (keys l) -> NoDup (keys (objSet k v l)).
Proof.
  induction l as [|[k0 v0] r IH]; simpl; intros Hnd.
  - apply NoDup_singleton.
  - apply NoDup_cons in Hnd as [Hnot Hnd].
    destruct (k0 =? k)%string eqn:E; simpl.
    + apply NoDup_cons. auto.
    + apply NoDup_cons. split; [|auto].
      rewrite keys_objSet. intros [->|Hin]; [|contradiction].
      rewrite String.eqb_refl in E. discriminate.
Qed.

Lemma NoDup_assignAll source : forall target,
  NoDup (keys target) -> NoDup (keys (assignAll target source)).
Proof.
  unfold assignAll.
  induction source as [|[k v] r IH]; intros target Hnd; simpl; [exact Hnd|].
  apply IH, NoDup_objSet, Hnd.
Qed.

Lemma merged_properties resolved : forall props,
  NoDup (keys props) ->
  let merged :=
    fold_left (fun acc r => assignAll acc (propertiesOf r)) resolved props in
  NoDup (keys merged)
  /\ forall k, k ∈ keys merged
       <-> k ∈ keys props \/ exists r, r ∈ resolved /\ k ∈ keys (propertiesOf r).
Proof.
  induction resolved as [|r rest IH]; intros props Hnd; simpl.
  - split; [exact Hnd|]. intros k. split; [auto|].
    intros [H|(r & Hr & _)]; [exact H|]. apply elem_of_nil in Hr. contradiction.
  - destruct (IH (assignAll props (propertiesOf r))
                (NoDup_assignAll _ _ Hnd)) as [Hn Hk].
    split; [exact Hn|]. intros k. rewrite Hk, keys_assignAll. split.
    + intros [[H|H]|(r' & Hr' & H)]; [auto| |].
      * right. exists r. split; [apply elem_of_cons; auto | exact H].
      * right. exists r'. split; [apply elem_of_cons; auto | exact H].
    + intros [H|(r' & Hr' & H)]; [auto|].
      apply elem_of_cons in Hr' as [->|Hr']; [auto|].
      right. exists r'. auto.
Qed.

(** X5.  The property map of a resolved composite lists every name
    once, and its names are exactly the names that the resolved branches
    declare. *)
Theorem allOf_merged_names spec schema branches seen depth merged seen' :
  get schema "allOf" = Arr branches ->
  truthy (get schema "$ref") = false ->
  (depth <= MAX_SCHEMA_DEPTH)%nat ->
  derefSchema spec schema seen depth = Ok (merged, seen') ->
  exists resolved props,
    resolveBranches (derefSchema spec) branches seen (depth + 1)
    = Ok (resolved, seen')
    /\ get merged "properties" = Obj props
    /\ NoDup (keys props)
    /\ forall k, k ∈ keys props
         <-> exists r, r ∈ resolved /\ k ∈ keys (propertiesOf r).
Proof.
  intros Hall Href Hd. rewrite (derefSchema_composite _ _ _ _ _ Hall Href Hd).
  destruct (resolveBranches _ _ _ _) as [[resolved sn]|e]; simpl;
    [|discriminate].
  intros [= <- <-]. exists resolved. eexists.
  split; [reflexivity|]. split; [reflexivity|].
  destruct (merged_properties resolved [] (NoDup_nil_2 (A:=string))) as [Hn Hk].
  split; [exact Hn|]. intros k. rewrite Hk. split.
  - intros [H|H]; [apply elem_of_nil in H; contradiction | exact H].
  - auto.
Qed.

Lemma allOf_merged_names_witness :
  exists resolved props,
    resolveBranches (derefSchema (Obj [])) (arrayItems (get overlapping "allOf")) ∅ 1
    = Ok (resolved, ∅)
    /\ get (Obj [("type", Str "object");
                 ("properties", Obj [("id", Obj [("type", Str "string")]);
                                     ("title", Obj [("type", Str "number")])]);
                 ("required", Undefined)]) "properties" = Obj props
    /\ NoDup (keys props)
    /\ forall k, k ∈ keys props
         <-> exists r, r ∈ resolved /\ k ∈ keys (propertiesOf r).
Proof.
  apply (allOf_merged_names (Obj []) overlapping
           (arrayItems (get overlapping "allOf")) ∅ 0).
  - reflexivity.
  - reflexivity.
  - unfold MAX_SCHEMA_DEPTH. lia.
  - vm_compute. reflexivity.
Defined.

(** X6.  A composite keeps nothing of its branches, or of itself, but
    the type, the properties and the required names: what it compiles to
    is a bare object validator, closed under input mode and open under
    output mode, that never takes null and carries no documentation,
    whatever [nullable], [description] or [additionalProperties] the
    schema and its branches have. *)
Theorem allOf_compiles_bare spec schema branches options seen depth e :
  get schema "allOf" = Arr branches ->
  truthy (get schema "$ref") = false ->
  (depth <= MAX_SCHEMA_DEPTH)%nat ->
  schemaToZodExpression spec schema options depth seen = Ok e ->
  (exists entries,
     e = ZObject entries (match options with
                          | Input => Strict
                          | Output => Passthrough
                          end))
  /\ accepts e Null = false.
Proof.
  intros Hall Href Hd Hc.
  destruct (derefSchema spec schema seen depth) as [[merged sn]|err] eqn:Hderef.
  2:{ rewrite schemaToZodExpression_eq in Hc.
      unfold schemaToZodExpression_body in Hc. rewrite Hderef in Hc.
      discriminate. }
  pose proof Hderef as Hm.
  rewrite (derefSchema_composite _ _ _ _ _ Hall Href Hd) in Hm.
  destruct (resolveBranches _ _ _ _) as [[resolved sn']|err]; simpl in Hm;
    [|discriminate].
  injection Hm as <- <-.
  destruct (compile_object spec schema options depth seen
              (mergeResolved resolved) sn' e Hd Hderef eq_refl eq_refl eq_refl Hc)
    as (required & entries & unknown & _ & _ & _ & He & Hunk).
  assert (Hdec : forall x, decorate (mergeResolved resolved) x = x)
    by reflexivity.
  rewrite Hdec in He. subst e.
  assert (Hu : unknown = match options with
                         | Input => Strict
                         | Output => Passthrough
                         end).
  { destruct options; exact Hunk. }
  subst unknown. split; [eauto | reflexivity].
Qed.

Lemma allOf_compiles_bare_witness :
  (exists entries,
     ZObject [("id", ZOptional ZString); ("title", ZOptional ZNumber)] Strict
     = ZObject entries Strict)
  /\ accepts
       (ZObject [("id", ZOptional ZString); ("title", ZOptional ZNumber)] Strict)
       Null = false.
Proof.
  apply (allOf_compiles_bare (Obj []) overlapping
           (arrayItems (get overlapping "allOf")) Input ∅ 0).
  - reflexivity.
  - reflexivity.
  - unfold MAX_SCHEMA_DEPTH. lia.
  - vm_compute. reflexivity.
Defined.

(** ** Where compilation gives up *)

(** X7.  Past the depth bound a node compiles to the validator that
    accepts everything, without a look at the node: a reference there
    that cannot be looked up raises nothing.  A node with a truthy
    [oneOf] or [anyOf] compiles to the same validator, whatever type,
    properties, nullable flag or description it has besides. *)
Theorem compile_degrades spec schema options depth seen :
  ((MAX_SCHEMA_DEPTH < depth)%nat ->
   schemaToZodExpression spec schema options depth seen = Ok ZAny)
  /\ (forall resolved seen1,
        derefSchema spec schema seen depth = Ok (resolved, seen1) ->
        truthy (get resolved "oneOf") || truthy (get resolved "anyOf") = true ->
        schemaToZodExpression spec schema options depth seen = Ok ZAny).
Proof.
  split.
  - intros Hd. eapply schemaToZodExpression_empty.
    apply derefSchema_deep. exact Hd.
  - intros resolved seen1 Hderef Hunion.
    rewrite schemaToZodExpression_eq. unfold schemaToZodExpression_body.
    rewrite Hderef. simpl fst. simpl snd. simpl bind.
    destruct (negb (truthy resolved) || (MAX_SCHEMA_DEPTH <? depth)%nat);
      [reflexivity|].
    rewrite Hunion. reflexivity.
Qed.

Lemma compile_degrades_witness :
  schemaToZodExpression (Obj []) (Obj [("$ref", Str missingRef)]) Input 9 ∅
  = Ok ZAny.
Proof.
  apply (compile_degrades (Obj []) (Obj [("$ref", Str missingRef)]) Input 9 ∅).
  unfold MAX_SCHEMA_DEPTH. lia.
Defined.

(** ** The nullable flag and the documentation *)

Lemma accepts_decorate_full resolved base v :
  accepts (decorate resolved base) v
  = (truthy (get resolved "nullable") && strictEq v Null) || accepts base v.
Proof.
  unfold decorate.
  destruct (0 <? length _)%nat; simpl;
    destruct (truthy (get resolved "nullable")); reflexivity.
Qed.

(** X8.  A node that is resolved within the depth bound and is no union
    compiles to the validator of its type with the decoration on top.
    The decoration never changes a verdict but for null, which it adds
    exactly when the nullable flag is truthy: the description and the
    example play no part in validation, in either mode. *)
Theorem decoration_verdict spec schema options depth seen resolved seen1 e :
  (depth <= MAX_SCHEMA_DEPTH)%nat ->
  derefSchema spec schema seen depth = Ok (resolved, seen1) ->
  truthy (get resolved "oneOf") = false ->
  truthy (get resolved "anyOf") = false ->
  schemaToZodExpression spec schema options depth seen = Ok e ->
  exists base,
    typedExpression (selfCompile spec options) options resolved depth seen1
    = Ok base
    /\ e = decorate resolved base
    /\ (forall v,
          accepts e v
          = (truthy (get resolved "nullable") && strictEq v Null)
            || accepts base v)
    /\ (truthy (get resolved "nullable") = true -> accepts e Null = true).
Proof.
  intros Hd Hderef Hone Hany.
  rewrite (compile_typed _ _ _ _ _ _ _ Hd Hderef Hone Hany).
  destruct (typedExpression _ _ _ _ _) as [base|err]; simpl; [|discriminate].
  intros [= <-]. exists base. split; [reflexivity|]. split; [reflexivity|].
  split.
  - intros v. apply accepts_decorate_full.
  - intros Hn. rewrite accepts_decorate_full, Hn. reflexivity.
Qed.

Lemma decoration_verdict_witness :
  exists base,
    typedExpression (selfCompile (Obj []) Output) Output nullableString 0 ∅
    = Ok base
    /\ ZDescribe (ZNullable ZString) "A title Example: 7"
       = decorate nullableString base
    /\ (forall v,
          accepts (ZDescribe (ZNullable ZString) "A title Example: 7") v
          = (truthy (get nullableString "nullable") && strictEq v Null)
            || accepts base v)
    /\ (truthy (get nullableString "nullable") = true ->
        accepts (ZDescribe (ZNullable ZString) "A title Example: 7") Null = true).
Proof.
  apply (decoration_verdict (Obj []) nullableString Output 0 ∅ nullableString ∅).
  - unfold MAX_SCHEMA_DEPTH. lia.
  - vm_compute. reflexivity.
  - reflexivity.
  - reflexivity.
  - vm_compute. reflexivity.
Defined.

(** ** Arrays *)

(** X9.  A node of type array compiles to an array validator: without a
    truthy [items] every array is accepted; with one, an array is
    accepted exactly when each element passes the validator compiled
    from [items] one level down.  An object is never accepted. *)
Theorem array_compiled spec schema options depth seen resolved seen1 e :
  (depth <= MAX_SCHEMA_DEPTH)%nat ->
  derefSchema spec schema seen depth = Ok (resolved, seen1) ->
  truthy (get resolved "oneOf") = false ->
  truthy (get resolved "anyOf") = false ->
  objectBranch resolved = false ->
  get resolved "type" = Str "array" ->
  schemaToZodExpression spec schema options depth seen = Ok e ->
  exists item,
    e = decorate resolved (ZArray item)
    /\ (if truthy (get resolved "items")
        then schemaToZodExpression spec (get resolved "items") options
               (depth + 1) seen1 = Ok item
        else item = ZAny)
    /\ (forall l, accepts e (Arr l) = forallb (accepts item) l)
    /\ (forall fs, accepts e (Obj fs) = false).
Proof.
  intros Hd Hderef Hone Hany Hobj Hty.
  rewrite (compile_typed _ _ _ _ _ _ _ Hd Hderef Hone Hany).
  unfold typedExpression. rewrite Hobj, Hty. simpl strictEq. cbv iota.
  unfold selfCompile at 1.
  destruct (truthy (get resolved "items")) eqn:Hi.
  - destruct (schemaToZodExpression spec _ options (depth + 1) seen1)
      as [item|err] eqn:Hitem; simpl; [|discriminate].
    intros [= <-]. exists item. split; [reflexivity|]. split; [reflexivity|].
    split; intros; rewrite accepts_decorate by reflexivity; reflexivity.
  - simpl. intros [= <-]. exists ZAny. split; [reflexivity|].
    split; [reflexivity|].
    split; intros; rewrite accepts_decorate by reflexivity; reflexivity.
Qed.

Lemma array_compiled_witness :
  exists item,
    ZArray ZNumber = decorate numberList (ZArray item)
    /\ (if truthy (get numberList "items")
        then schemaToZodExpression (Obj []) (get numberList "items") Input 1 ∅
             = Ok item
        else item = ZAny)
    /\ (forall l, accepts (ZArray ZNumber) (Arr l) = forallb (accepts item) l)
    /\ (forall fs, accepts (ZArray ZNumber) (Obj fs) = false).
Proof.
  apply (array_compiled (Obj []) numberList Input 0 ∅ numberList ∅).
  - unfold MAX_SCHEMA_DEPTH. lia.
  - vm_compute. reflexivity.
  - reflexivity.
  - reflexivity.
  - reflexivity.
  - reflexivity.
  - vm_compute. reflexivity.
Defined.

(** ** The validators of a tool *)

Lemma compile_union spec schema options depth seen resolved seen1 :
  derefSchema spec schema seen depth = Ok (resolved, seen1) ->
  truthy (get resolved "oneOf") || truthy (get resolved "anyOf") = true ->
  schemaToZodExpression spec schema options depth seen = Ok ZAny.
Proof.
  intros Hderef Hunion.
  rewrite schemaToZodExpression_eq. unfold schemaToZodExpression_body.
  rewrite Hderef. simpl fst. simpl snd. simpl bind.
  destruct (negb (truthy resolved) || (MAX_SCHEMA_DEPTH <? depth)%nat);
    [reflexivity|].
  rewrite Hunion. reflexivity.
Qed.

Lemma passthrough_extra resolved entries k x fs :
  k ∉ keys entries ->
  accepts (decorate resolved (ZObject entries Passthrough)) (Obj (objSet k x fs))
  = accepts (decorate resolved (ZObject entries Passthrough)) (Obj fs).
Proof.
  intros Hk. rewrite !accepts_decorate by reflexivity.
  rewrite !accepts_object, !extras_passthrough, !andb_true_r.
  rewrite <- (shapeOk_known (keys entries) entries (objSet k x fs)) by auto.
  rewrite knownMembers_objSet by exact Hk.
  apply shapeOk_known. auto.
Qed.

Lemma isObjectShaped_objectBranch resolved :
  isObjectShaped resolved = objectBranch resolved.
Proof. unfold isObjectShaped, objectBranch. rewrite !getOpt_get. reflexivity. Qed.

(** X10.  An output validator is there only for a 200 (else 201) JSON
    response schema that resolves to an object shape, and when it is
    there it never turns a response down for a member the schema does not
    declare: adding or changing such a member leaves the verdict as it
    is. *)
Theorem output_validator_open spec operation e :
  buildOutputSchemaExpression spec operation = Ok (Some e) ->
  exists resolved seen1,
    truthy (responseSchemaOf operation) = true
    /\ derefSchema spec (responseSchemaOf operation) ∅ 0 = Ok (resolved, seen1)
    /\ isObjectShaped resolved = true
    /\ forall fs k x, k ∉ declaredKeys resolved ->
         accepts e (Obj (objSet k x fs)) = accepts e (Obj fs).
Proof.
  unfold buildOutputSchemaExpression. fold (responseSchemaOf operation).
  destruct (truthy (responseSchemaOf operation)) eqn:Ht; simpl;
    [|discriminate].
  destruct (derefSchema spec (responseSchemaOf operation) ∅ 0)
    as [[resolved seen1]|err] eqn:Hderef; simpl; [|discriminate].
  destruct (isObjectShaped resolved) eqn:Hshape; simpl; [|discriminate].
  destruct (schemaToZodExpression spec _ Output 0 ∅) as [e'|err] eqn:Hc;
    simpl; [|discriminate].
  intros [= ->]. exists resolved, seen1. repeat split; auto.
  intros fs k x Hk.
  destruct (truthy (get resolved "oneOf") || truthy (get resolved "anyOf"))
    eqn:Hunion.
  - rewrite (compile_union _ _ _ _ _ _ _ Hderef Hunion) in Hc.
    injection Hc as <-. reflexivity.
  - apply orb_false_elim in Hunion as [Hone Hany].
    rewrite isObjectShaped_objectBranch in Hshape.
    destruct (compile_object spec _ Output 0 ∅ resolved seen1 e
                (Nat.le_0_l _) Hderef Hone Hany Hshape Hc)
      as (required & entries & unknown & _ & Hkeys & _ & -> & ->).
    apply passthrough_extra. rewrite Hkeys. exact Hk.
Qed.

Lemma output_validator_open_witness :
  exists resolved seen1,
    truthy (responseSchemaOf listResponse) = true
    /\ derefSchema (Obj []) (responseSchemaOf listResponse) ∅ 0
       = Ok (resolved, seen1)
    /\ isObjectShaped resolved = true
    /\ forall fs k x, k ∉ declaredKeys resolved ->
         accepts (ZObject [("data", ZNullable (ZOptional (ZArray ZAny)))]
                    Passthrough) (Obj (objSet k x fs))
         = accepts (ZObject [("data", ZNullable (ZOptional (ZArray ZAny)))]
                      Passthrough) (Obj fs).
Proof.
  apply (output_validator_open (Obj []) listResponse).
  vm_compute. reflexivity.
Defined.

Lemma accepts_empty_strict v :
  accepts (ZObject [] Strict) v = true <-> v = Obj [].
Proof.
  split; [|intros ->; reflexivity].
  destruct v as [| | | | | |fs| |]; try discriminate.
  destruct fs as [|[k x] r]; [reflexivity | discriminate].
Qed.

Lemma accepts_payload p fs :
  accepts (ZObject [("payload", p)] Strict) (Obj fs) = true ->
  forall k, k ∈ keys fs -> k = "payload".
Proof.
  rewrite accepts_object. intros [_ H]%andb_prop k Hk.
  destruct (decide (k = "payload")) as [E|E]; [exact E|].
  rewrite (extras_strict _ fs k Hk) in H; [discriminate|].
  simpl. intros Hin%list_elem_of_singleton. contradiction.
Qed.

(** X11.  The input validator of a tool.  Without a (truthy) JSON
    request schema it accepts the empty object and nothing else.  A
    request schema that does not resolve to an object shape is compiled
    and put under the one name [payload] of a closed object, so an
    accepted argument object has no other member.  A request schema that
    resolves to an object shape is compiled from its resolved form, with a
    fresh set of seen references. *)
Theorem input_validator_cases spec operation e :
  buildInputSchemaExpression spec operation = Ok e ->
  (truthy (requestSchemaOf operation) = false ->
   forall v, accepts e v = true <-> v = Obj [])
  /\ (truthy (requestSchemaOf operation) = true ->
      exists resolved seen1,
        derefSchema spec (requestSchemaOf operation) ∅ 0 = Ok (resolved, seen1)
        /\ (isObjectShaped resolved = true ->
            schemaToZodExpression spec resolved Input 0 ∅ = Ok e)
        /\ (isObjectShaped resolved = false ->
            exists p,
              schemaToZodExpression spec resolved Input 0 ∅ = Ok p
              /\ e = ZObject [("payload", p)] Strict
              /\ (forall v, accepts e (Obj [("payload", v)]) = accepts p v)
              /\ (forall fs, accepts e (Obj fs) = true ->
                    forall k, k ∈ keys fs -> k = "payload"))).
Proof.
  unfold buildInputSchemaExpression. fold (requestSchemaOf operation).
  destruct (truthy (requestSchemaOf operation)) eqn:Ht; simpl.
  - destruct (derefSchema spec (requestSchemaOf operation) ∅ 0)
      as [[resolved seen1]|err] eqn:Hderef; simpl; [|discriminate].
    intros H. split; [discriminate|]. intros _.
    exists resolved, seen1. split; [reflexivity|].
    destruct (isObjectShaped resolved).
    + split; [intros _; exact H | discriminate].
    + split; [discriminate|]. intros _.
      destruct (schemaToZodExpression spec resolved Input 0 ∅) as [p|err];
        simpl in H; [|discriminate].
      injection H as <-. exists p. split; [reflexivity|].
      split; [reflexivity|]. split.
      * intros v. simpl. rewrite !andb_true_r. reflexivity.
      * apply accepts_payload.
  - intros [= <-]. split; [|discriminate].
    intros _ v. apply accepts_empty_strict.
Qed.

Lemma input_validator_cases_witness :
  accepts (ZObject [] Strict) (Obj [("id", Num 1)]) = true
  <-> Obj [("id", Num 1)] = Obj [].
Proof.
  apply (input_validator_cases (Obj []) (Obj [("operationId", Str "auth.info")])
           (ZObject [] Strict)); reflexivity.
Defined.

(** ** The pagination note *)

Lemma isIn_limit props : isIn "limit" (Obj props) = hasKey "limit" props.
Proof.
  unfold isIn. cbn [hasOwn].
  replace (inherited (Obj props) "limit") with (@None value) by reflexivity.
  apply orb_false_r.
Qed.

Lemma isIn_offset props : isIn "offset" (Obj props) = hasKey "offset" props.
Proof.
  unfold isIn. cbn [hasOwn].
  replace (inherited (Obj props) "offset") with (@None value) by reflexivity.
  apply orb_false_r.
Qed.

Lemma hasPagination_properties spec operation resolved seen1 props :
  truthy (requestSchemaOf operation) = true ->
  derefSchema spec (requestSchemaOf operation) ∅ 0 = Ok (resolved, seen1) ->
  get resolved "properties" = Obj props ->
  hasPagination spec operation = Ok (hasKey "limit" props || hasKey "offset" props).
Proof.
  intros Ht Hderef Hp. unfold hasPagination.
  fold (requestSchemaOf operation). rewrite Ht, Hderef. simpl.
  rewrite getOpt_get, Hp.
  change (orElse (Obj props) (Obj [])) with (Obj props).
  cbn [inOperator bind]. rewrite isIn_limit, isIn_offset.
  destruct (hasKey "limit" props); reflexivity.
Qed.

(** X12.  The description of a tool is the operation's description, or
    else its summary, or else empty; and when the resolved request schema
    has a property named [limit] or [offset], the fixed pagination
    sentence comes after it, two line ends apart, or stands alone when
    there is nothing before it.  Nothing else is added. *)
Theorem description_pagination spec pathKey operation t :
  generateTool spec pathKey operation = Ok t ->
  exists paginated,
    hasPagination spec operation = Ok paginated
    /\ (paginated = false -> description t = baseDescription operation)
    /\ (paginated = true ->
        description t
        = if truthy (baseDescription operation)
          then Str (toJsString (baseDescription operation)
                      +:+ newline +:+ newline +:+ paginationNote)
          else Str paginationNote)
    /\ (forall resolved seen1 props,
          truthy (requestSchemaOf operation) = true ->
          derefSchema spec (requestSchemaOf operation) ∅ 0
          = Ok (resolved, seen1) ->
          get resolved "properties" = Obj props ->
          paginated = hasKey "limit" props || hasKey "offset" props)
    /\ (truthy (requestSchemaOf operation) = false -> paginated = false).
Proof.
  unfold generateTool.
  destruct (operationIdOf pathKey operation) as [| | | |identifier| | | |];
    try discriminate.
  destruct (buildInputSchemaExpression spec operation); simpl; [|discriminate].
  destruct (buildOutputSchemaExpression spec operation); simpl; [|discriminate].
  destruct (hasPagination spec operation) as [paginated|err] eqn:Hp; simpl;
    [|discriminate].
  intros [= <-]. exists paginated. split; [reflexivity|]. simpl.
  fold (baseDescription operation).
  split; [intros ->; reflexivity|]. split; [intros ->; reflexivity|]. split.
  - intros resolved seen1 props Ht Hderef Hprops.
    rewrite (hasPagination_properties _ _ _ _ _ Ht Hderef Hprops) in Hp.
    congruence.
  - intros Ht. unfold hasPagination in Hp.
    fold (requestSchemaOf operation) in Hp. rewrite Ht in Hp. simpl in Hp.
    congruence.
Qed.

Lemma description_pagination_witness :
  match generateTool (Obj []) "/documents.list" listResponse with
  | Ok t => description t
  | Throw _ => Undefined
  end
  = Str ("List documents" +:+ newline +:+ newline +:+ paginationNote).
Proof.
  destruct (generateTool (Obj []) "/documents.list" listResponse) as [t|err]
    eqn:E; [|vm_compute in E; discriminate].
  destruct (description_pagination _ _ _ _ E)
    as (paginated & Hp & _ & Hyes & Hprops & _).
  rewrite Hyes; [reflexivity|].
  apply (Hprops (get (get (get (get listResponse "requestBody") "content")
                        "application/json") "schema") ∅
           [("offset", Obj [("type", Str "number")]);
            ("limit", Obj [("type", Str "number")])]);
    vm_compute; reflexivity.
Defined.

(** ** The segments of a pointer *)

Lemma splitOn_nonempty sep s : exists h t, splitOn sep s = h :: t.
Proof.
  induction s as [|c r (h & t & IH)]; simpl; [eauto|].
  destruct (c =? sep)%char; [eauto|]. rewrite IH. eauto.
Qed.

Lemma concat_cons_cons sep a b l :
  String.concat sep (a :: b :: l) = a +:+ sep +:+ String.concat sep (b :: l).
Proof. reflexivity. Qed.

Lemma concat_head sep c h t :
  String.concat sep (String c h :: t) = String c (String.concat sep (h :: t)).
Proof. destruct t; reflexivity. Qed.

Lemma concat_splitOn sep s :
  String.concat (separator sep) (splitOn sep s) = s.
Proof.
  induction s as [|c r IH]; simpl; [reflexivity|].
  destruct (splitOn_nonempty sep r) as (h & t & E). rewrite E in IH |- *.
  destruct (c =? sep)%char eqn:Ec.
  - apply Ascii.eqb_eq in Ec. subst c.
    rewrite concat_cons_cons, IH. reflexivity.
  - rewrite concat_head, IH. reflexivity.
Qed.

Lemma splitOn_without sep s : Forall (fun p => without sep p = true) (splitOn sep s).
Proof.
  induction s as [|c r IH]; simpl; [repeat constructor|].
  destruct (c =? sep)%char eqn:Ec; [constructor; [reflexivity | exact IH]|].
  destruct (splitOn sep r) as [|h t].
  { constructor; [|constructor]. unfold without. simpl. rewrite Ec. reflexivity. }
  inversion IH as [|? ? Hh Ht]; subst. constructor; [|exact Ht].
  unfold without in *. simpl. rewrite Ec, Hh. reflexivity.
Qed.

Lemma splitOn_without_one sep p :
  without sep p = true -> splitOn sep p = [p].
Proof.
  unfold without. induction p as [|c r IH]; simpl; [reflexivity|].
  intros [Hc Hr]%andb_prop. apply negb_true_iff in Hc.
  rewrite Hc, (IH Hr). reflexivity.
Qed.

Lemma splitOn_append sep p rest :
  without sep p = true ->
  splitOn sep (p +:+ separator sep +:+ rest) = p :: splitOn sep rest.
Proof.
  unfold without. induction p as [|c r IH]; simpl.
  - intros _. rewrite Ascii.eqb_refl. reflexivity.
  - intros [Hc Hr]%andb_prop. apply negb_true_iff in Hc.
    rewrite Hc, (IH Hr). reflexivity.
Qed.

Lemma splitOn_concat sep parts :
  parts <> [] ->
  Forall (fun p => without sep p = true) parts ->
  splitOn sep (String.concat (separator sep) parts) = parts.
Proof.
  intros Hne Hall. induction Hall as [|p rest Hp Hrest IH]; [congruence|].
  destruct rest as [|q rest'].
  - simpl. apply splitOn_without_one. exact Hp.
  - rewrite concat_cons_cons, splitOn_append by exact Hp.
    rewrite IH by discriminate. reflexivity.
Qed.

Lemma hashSlash_slice2 ref :
  startsWithHashSlash ref = true -> ref = "#/" +:+ slice2 ref.
Proof.
  intros H.
  destruct ref as [|a [|b r]];
    [discriminate H | byteCases a; discriminate H |].
  byteCases a; simpl in H; try discriminate H.
  byteCases b; simpl in H; try discriminate H.
  reflexivity.
Qed.

Lemma lookupParts_app parts rest : forall current,
  lookupParts current (parts ++ rest)
  = match lookupParts current parts with
    | Some v => lookupParts v rest
    | None => None
    end.
Proof.
  induction parts as [|p parts IH]; intros current; simpl; [reflexivity|].
  destruct (isIn p current); [apply IH | reflexivity].
Qed.

(** The functions of [Object.prototype] are what an object without an
    own member of the name has under it; no name of them holds a
    slash. *)
Lemma inherited_function fs k :
  k ∈ objectFunctions ->
  inherited (Obj fs) k = Some (Builtin ObjectPrototype k)
  /\ without "/" k = true.
Proof.
  unfold objectFunctions. intros H.
  repeat (apply elem_of_cons in H as [->|H]; [split; reflexivity|]).
  apply not_elem_of_nil in H. destruct H.
Qed.

Lemma resolveRef_joined spec parts :
  parts <> [] ->
  Forall (fun p => without "/" p = true) parts ->
  resolveRef spec (Str ("#/" +:+ String.concat "/" parts))
  = match lookupParts spec parts with
    | Some v => Ok v
    | None => Throw (Unresolvable ("#/" +:+ String.concat "/" parts))
    end.
Proof.
  intros Hne Hall. rewrite resolveRef_lookup.
  assert (E : "#/" +:+ String.concat "/" parts
              = String "#" (String "/" (String.concat "/" parts)))
    by reflexivity.
  rewrite E. cbn [startsWithHashSlash]. unfold lookupPointer.
  cbn [slice2].
  pose proof (splitOn_concat "/" parts Hne Hall) as Hsplit.
  unfold separator in Hsplit. rewrite Hsplit. reflexivity.
Qed.

(** X13.  [resolveRef] cuts the pointer after [#/] at every slash and
    nowhere else, and unescapes nothing: a pointer that resolves is [#/]
    and its segments joined by slashes, no segment holds a slash, and the
    value is what the segments lead to, one member after the other; and
    the other way round, such segments joined are looked up as they
    are.  So a member whose name holds a slash is out of reach.  A
    segment is looked up with [in]: after an object that has no own
    member of the name, the name of a function of [Object.prototype]
    ([constructor], [toString], ...) resolves to that function. *)
Theorem resolveRef_segments spec :
  (forall ref v,
     resolveRef spec (Str ref) = Ok v ->
     exists parts,
       ref = "#/" +:+ String.concat "/" parts
       /\ parts <> []
       /\ Forall (fun p => without "/" p = true) parts
       /\ lookupParts spec parts = Some v)
  /\ (forall parts,
        parts <> [] ->
        Forall (fun p => without "/" p = true) parts ->
        resolveRef spec (Str ("#/" +:+ String.concat "/" parts))
        = match lookupParts spec parts with
          | Some v => Ok v
          | None => Throw (Unresolvable ("#/" +:+ String.concat "/" parts))
          end)
  /\ (forall parts fs k,
        Forall (fun p => without "/" p = true) parts ->
        lookupParts spec parts = Some (Obj fs) ->
        hasKey k fs = false ->
        k ∈ objectFunctions ->
        resolveRef spec (Str ("#/" +:+ String.concat "/" (parts ++ [k])))
        = Ok (Builtin ObjectPrototype k)).
Proof.
  split; [|split].
  - intros ref v. rewrite resolveRef_lookup.
    destruct (startsWithHashSlash ref) eqn:Hs; [|discriminate].
    unfold lookupPointer.
    destruct (lookupParts spec _) as [v'|] eqn:Hl; [|discriminate].
    intros [= <-]. exists (splitOn "/" (slice2 ref)).
    split; [|split; [|split]].
    + rewrite (concat_splitOn "/"). apply hashSlash_slice2. exact Hs.
    + destruct (splitOn_nonempty "/" (slice2 ref)) as (h & t & ->).
      discriminate.
    + apply splitOn_without.
    + exact Hl.
  - apply resolveRef_joined.
  - intros parts fs k Hall Hl Hown Hk.
    destruct (inherited_function fs k Hk) as [Hin Hslash].
    rewrite resolveRef_joined.
    + rewrite lookupParts_app, Hl. cbn [lookupParts].
      unfold isIn, member. cbn [hasOwn]. rewrite Hown, Hin. reflexivity.
    + destruct parts; discriminate.
    + apply Forall_app. split; [exact Hall|]. constructor; [exact Hslash|].
      constructor.
Qed.

Lemma resolveRef_segments_witness :
  resolveRef sharedSpec (Str ("#/" +:+ String.concat "/" ["components"; "schemas"; "Base"]))
  = Ok idSchema
  /\ resolveRef sharedSpec
       (Str ("#/" +:+ String.concat "/" (["components"; "schemas"] ++ ["toString"])))
     = Ok (Builtin ObjectPrototype "toString").
Proof.
  destruct (resolveRef_segments sharedSpec) as (_ & H & Hinherited).
  split.
  - rewrite H; [reflexivity | discriminate | repeat constructor].
  - eapply Hinherited.
    + repeat constructor.
    + reflexivity.
    + reflexivity.
    + unfold objectFunctions. rewrite !elem_of_cons. auto 10.
Defined.

(** ** Required names that are not declared *)

Lemma assoc_withoutMember name k fs :
  k <> name -> assoc k (withoutMember name fs) = assoc k fs.
Proof.
  intros Hk. induction fs as [|[k0 v0] r IH]; simpl; [reflexivity|].
  destruct (k0 =? name)%string eqn:E; simpl.
  - apply String.eqb_eq in E. subst k0.
    destruct (name =? k)%string eqn:E2; [|exact IH].
    apply String.eqb_eq in E2. congruence.
  - rewrite IH. reflexivity.
Qed.

Lemma shapeOk_withoutMember name shape fs :
  name ∉ keys shape ->
  shapeOk shape (withoutMember name fs) = shapeOk shape fs.
Proof.
  unfold shapeOk. induction shape as [|[k p] r IH]; intros Hn;
    cbn [forallb]; [reflexivity|].
  simpl in Hn. apply not_elem_of_cons in Hn as [Hne Hn].
  assert (Hg : get (Obj (withoutMember name fs)) k = get (Obj fs) k).
  { simpl. rewrite assoc_withoutMember by congruence. reflexivity. }
  rewrite Hg, (IH Hn). reflexivity.
Qed.

Lemma forallb_withoutMember (f : string * value -> bool) name fs :
  forallb f fs = true -> forallb f (withoutMember name fs) = true.
Proof.
  induction fs as [|kv r IH]; simpl; [reflexivity|].
  intros [H1 H2]%andb_prop.
  destruct (negb (fst kv =? name)); simpl; [rewrite H1|]; auto.
Qed.

(** X18.  The required names of an object node bear on its declared
    properties only.  A name that is not in the property map makes no
    entry of the compiled shape, so an accepted argument object stays
    accepted when the member of that name is taken out, in either mode and
    whether or not [required] lists the name: a required name without a
    property is not asked for. *)
Theorem undeclared_required_not_enforced
    spec schema options seen depth resolved seen1 e name :
  (depth <= MAX_SCHEMA_DEPTH)%nat ->
  derefSchema spec schema seen depth = Ok (resolved, seen1) ->
  truthy (get resolved "oneOf") = false ->
  truthy (get resolved "anyOf") = false ->
  objectBranch resolved = true ->
  schemaToZodExpression spec schema options depth seen = Ok e ->
  name ∉ declaredKeys resolved ->
  (exists entries unknown,
     e = decorate resolved (ZObject entries unknown)
     /\ keys entries = declaredKeys resolved)
  /\ forall fs, accepts e (Obj fs) = true ->
       accepts e (Obj (withoutMember name fs)) = true.
Proof.
  intros Hd Hderef Hone Hany Hobj Hc Hname.
  destruct (compile_object _ _ _ _ _ _ _ _ Hd Hderef Hone Hany Hobj Hc)
    as (required & entries & unknown & _ & Hkeys & _ & -> & _).
  split; [eauto|]. intros fs.
  rewrite !accepts_decorate by reflexivity. rewrite !accepts_object.
  intros [H1 H2]%andb_prop.
  rewrite shapeOk_withoutMember by (rewrite Hkeys; exact Hname).
  rewrite H1. apply forallb_withoutMember. exact H2.
Qed.

Lemma undeclared_required_not_enforced_witness :
  accepts (ZObject [("title", ZOptional ZString)] Strict)
    (Obj (withoutMember "id" [("title", Str "Notes")])) = true.
Proof.
  destruct (undeclared_required_not_enforced (Obj []) requiredUndeclared Input
              ∅ 0 requiredUndeclared ∅
              (ZObject [("title", ZOptional ZString)] Strict) "id")
    as [_ H].
  - unfold MAX_SCHEMA_DEPTH. lia.
  - vm_compute. reflexivity.
  - reflexivity.
  - reflexivity.
  - reflexivity.
  - vm_compute. reflexivity.
  - vm_compute. notKey.
  - apply H. reflexivity.
Defined.

(** * Properties of the server *)

(** ** Strings: ends and white space *)

Lemma endsWith_eq suffix s :
  endsWith suffix s
  = (s =? suffix)
    || match s with
       | EmptyString => false
       | String _ r => endsWith suffix r
       end.
Proof. destruct s; reflexivity. Qed.

Lemma endsWith_app suffix p : endsWith suffix (p +:+ suffix) = true.
Proof.
  induction p as [|c r IH].
  - change (EmptyString +:+ suffix) with suffix.
    rewrite endsWith_eq, String.eqb_refl. reflexivity.
  - change (String c r +:+ suffix) with (String c (r +:+ suffix)).
    rewrite endsWith_eq, IH. apply orb_true_r.
Qed.

Lemma endsWith_elim suffix s :
  endsWith suffix s = true -> exists p, s = p +:+ suffix.
Proof.
  induction s as [|c r IH]; rewrite endsWith_eq.
  - rewrite orb_false_r. intros H%String.eqb_eq. exists EmptyString. exact H.
  - intros [H|H]%orb_prop.
    + apply String.eqb_eq in H. exists EmptyString. exact H.
    + destruct (IH H) as [p ->]. exists (String c p). reflexivity.
Qed.

Lemma lastChar_cons c a r : lastChar (String c (String a r)) = lastChar (String a r).
Proof. reflexivity. Qed.

Lemma lastChar_app p c r : lastChar (p +:+ String c r) = lastChar (String c r).
Proof.
  induction p as [|a p IH]; [reflexivity|].
  change (String a p +:+ String c r) with (String a (p +:+ String c r)).
  destruct (p +:+ String c r) as [|b q] eqn:E.
  - destruct p; discriminate E.
  - rewrite lastChar_cons. exact IH.
Qed.

Lemma endsWith_last c s :
  endsWith (String c EmptyString) s = true -> lastChar s = Some c.
Proof.
  intros [p ->]%endsWith_elim. apply lastChar_app.
Qed.

Lemma dropLast_app p c : dropLast (p +:+ String c EmptyString) = p.
Proof.
  induction p as [|a p IH]; [reflexivity|].
  change (String a p +:+ String c EmptyString)
    with (String a (p +:+ String c EmptyString)).
  destruct (p +:+ String c EmptyString) as [|b q] eqn:E.
  - destruct p; discriminate E.
  - change (String a (dropLast (String b q)) = String a p). rewrite IH.
    reflexivity.
Qed.

Lemma firstChar_app p q :
  firstChar (p +:+ q) = match firstChar p with
                        | Some a => Some a
                        | None => firstChar q
                        end.
Proof. destruct p; reflexivity. Qed.

Lemma firstChar_dropLast s :
  solid (firstChar s) = true -> solid (firstChar (dropLast s)) = true.
Proof. destruct s as [|c [|b r]]; auto. Qed.

Lemma trimStart_first s : solid (firstChar (trimStart s)) = true.
Proof.
  induction s as [|c r IH]; simpl; [reflexivity|].
  destruct (isSpace c) eqn:E; [exact IH|]. simpl. rewrite E. reflexivity.
Qed.

Lemma trimEnd_cases c r :
  trimEnd (String c r)
  = match trimEnd r with
    | EmptyString => if isSpace c then EmptyString else String c EmptyString
    | t => String c t
    end.
Proof. reflexivity. Qed.

Lemma trimEnd_first s :
  solid (firstChar s) = true -> solid (firstChar (trimEnd s)) = true.
Proof.
  destruct s as [|c r]; [reflexivity|]. rewrite trimEnd_cases.
  destruct (trimEnd r); [|auto]. destruct (isSpace c); auto.
Qed.

Lemma trimEnd_last s : solid (lastChar (trimEnd s)) = true.
Proof.
  induction s as [|c r IH]; [reflexivity|]. rewrite trimEnd_cases.
  destruct (trimEnd r) as [|b t].
  - destruct (isSpace c) eqn:E; simpl; [reflexivity | rewrite E; reflexivity].
  - rewrite lastChar_cons. exact IH.
Qed.

Lemma edgeFree_trim s : edgeFree (trim s) = true.
Proof.
  unfold edgeFree, trim.
  rewrite trimEnd_first by apply trimStart_first.
  rewrite trimEnd_last. reflexivity.
Qed.

Lemma trimStart_id s : solid (firstChar s) = true -> trimStart s = s.
Proof.
  destruct s as [|c r]; [reflexivity|]. simpl.
  intros H%negb_true_iff. rewrite H. reflexivity.
Qed.

Lemma trimEnd_id s : solid (lastChar s) = true -> trimEnd s = s.
Proof.
  induction s as [|c r IH]; [reflexivity|].
  rewrite trimEnd_cases. destruct r as [|b t].
  - simpl. intros H%negb_true_iff. rewrite H. reflexivity.
  - rewrite lastChar_cons. intros H. rewrite (IH H). reflexivity.
Qed.

Lemma trim_id s : edgeFree s = true -> trim s = s.
Proof.
  unfold edgeFree, trim. intros [Hf Hl]%andb_prop.
  rewrite (trimStart_id _ Hf). apply trimEnd_id. exact Hl.
Qed.

Lemma eqb_empty_false s :
  s <> EmptyString -> (s =? EmptyString) = false.
Proof. intros H. apply String.eqb_neq. exact H. Qed.

(** ** The base URL from the header *)

(** A string that is already in the form the function gives. *)
Lemma normalizeBaseUrlFromHeader_fixed url :
  edgeFree url = true ->
  endsWith "/api" url = true ->
  normalizeBaseUrlFromHeader url = Done url.
Proof.
  intros He Hapi. unfold normalizeBaseUrlFromHeader.
  rewrite (trim_id _ He).
  destruct (endsWith_elim _ _ Hapi) as [p Hp].
  assert (Hlast : lastChar url = Some "i"%char).
  { rewrite Hp. apply (lastChar_app p "/" "api"). }
  assert (Hne : (url =? EmptyString) = false).
  { apply eqb_empty_false. intros ->. discriminate Hlast. }
  rewrite Hne.
  destruct (endsWith "/" url) eqn:Hs.
  - apply endsWith_last in Hs. congruence.
  - rewrite Hapi. reflexivity.
Qed.

Lemma normalizeBaseUrlFromHeader_done serverUrl url :
  normalizeBaseUrlFromHeader serverUrl = Done url ->
  edgeFree url = true /\ endsWith "/api" url = true.
Proof.
  unfold normalizeBaseUrlFromHeader.
  pose proof (edgeFree_trim serverUrl) as He.
  destruct (trim serverUrl =? EmptyString); [discriminate|].
  set (t := trim serverUrl) in *.
  set (n := if endsWith "/" t then dropLast t else t).
  assert (Hn : solid (firstChar n) = true).
  { unfold edgeFree in He. apply andb_prop in He as [Hf _]. unfold n.
    destruct (endsWith "/" t); [apply firstChar_dropLast|]; exact Hf. }
  destruct (endsWith "/api" n) eqn:Hapi.
  - intros [= <-]. split; [|exact Hapi].
    unfold edgeFree. rewrite Hn.
    destruct (endsWith_elim _ _ Hapi) as [p ->].
    rewrite (lastChar_app p "/" "api"). reflexivity.
  - intros [= <-]. split; [|apply endsWith_app].
    unfold edgeFree. rewrite (lastChar_app n "/" "api"), firstChar_app.
    destruct (firstChar n); [rewrite Hn|]; reflexivity.
Qed.

(** X14.  [normalizeBaseUrlFromHeader] fails exactly on a header that is
    empty once trimmed.  What it returns ends in [/api], has no white
    space at its ends and no slash at its end, is a fixed point of the
    function, and gets its one slash from [normalizeBaseUrl] when a call
    is made.  The four spellings of one server (the bare origin, the
    origin with a slash, with [/api], with [/api/]) give the one URL. *)
Theorem server_url_canonical serverUrl origin :
  (normalizeBaseUrlFromHeader serverUrl = Failed "X-Server-Url header is empty"
   <-> trim serverUrl = EmptyString)
  /\ (forall url,
        normalizeBaseUrlFromHeader serverUrl = Done url ->
        endsWith "/api" url = true
        /\ endsWith "/" url = false
        /\ trim url = url
        /\ normalizeBaseUrlFromHeader url = Done url
        /\ normalizeBaseUrl url = url +:+ "/")
  /\ (edgeFree origin = true ->
      origin <> EmptyString ->
      endsWith "/" origin = false ->
      endsWith "/api" origin = false ->
      normalizeBaseUrlFromHeader origin = Done (origin +:+ "/api")
      /\ normalizeBaseUrlFromHeader (origin +:+ "/") = Done (origin +:+ "/api")
      /\ normalizeBaseUrlFromHeader (origin +:+ "/api") = Done (origin +:+ "/api")
      /\ normalizeBaseUrlFromHeader (origin +:+ "/api/")
         = Done (origin +:+ "/api")).
Proof.
  split; [|split].
  - unfold normalizeBaseUrlFromHeader.
    destruct (trim serverUrl =? EmptyString) eqn:E.
    + apply String.eqb_eq in E. tauto.
    + apply String.eqb_neq in E.
      split; [|contradiction]. destruct (endsWith "/api" _); discriminate.
  - intros url Hdone.
    destruct (normalizeBaseUrlFromHeader_done _ _ Hdone) as [He Hapi].
    assert (Hslash : endsWith "/" url = false).
    { destruct (endsWith "/" url) eqn:Hs; [|reflexivity].
      apply endsWith_last in Hs.
      destruct (endsWith_elim _ _ Hapi) as [p Hp].
      rewrite Hp, (lastChar_app p "/" "api") in Hs. discriminate Hs. }
    split; [exact Hapi|]. split; [exact Hslash|]. split; [|split].
    + apply trim_id. exact He.
    + apply normalizeBaseUrlFromHeader_fixed; assumption.
    + unfold normalizeBaseUrl. rewrite Hslash. reflexivity.
  - intros He Hne Hslash Hapi.
    assert (Hf : solid (firstChar origin) = true).
    { unfold edgeFree in He. apply andb_prop in He as [Hf _]. exact Hf. }
    assert (Hfirst : forall q, solid (firstChar (origin +:+ q)) = true).
    { intros q. rewrite firstChar_app.
      destruct origin; [congruence | exact Hf]. }
    assert (Hfix : normalizeBaseUrlFromHeader (origin +:+ "/api")
                   = Done (origin +:+ "/api")).
    { apply normalizeBaseUrlFromHeader_fixed; [|apply endsWith_app].
      unfold edgeFree. rewrite Hfirst, (lastChar_app origin "/" "api").
      reflexivity. }
    split; [|split; [|split]].
    + unfold normalizeBaseUrlFromHeader.
      rewrite (trim_id _ He), (eqb_empty_false _ Hne), Hslash, Hapi.
      reflexivity.
    + unfold normalizeBaseUrlFromHeader.
      rewrite trim_id
        by (unfold edgeFree;
            rewrite Hfirst, (lastChar_app origin "/" EmptyString); reflexivity).
      rewrite eqb_empty_false by (destruct origin; discriminate).
      rewrite (endsWith_app "/" origin), (dropLast_app origin "/"), Hapi.
      reflexivity.
    + exact Hfix.
    + unfold normalizeBaseUrlFromHeader.
      assert (E : origin +:+ "/api/" = (origin +:+ "/api") +:+ "/").
      { clear. induction origin as [|c r IH]; [reflexivity|].
        change (String c (r +:+ "/api/") = String c ((r +:+ "/api") +:+ "/")).
        f_equal. exact IH. }
      rewrite E.
      rewrite trim_id
        by (unfold edgeFree;
            rewrite <- E, Hfirst, (lastChar_app origin "/" "api/");
            reflexivity).
      rewrite eqb_empty_false by (destruct origin; discriminate).
      rewrite (endsWith_app "/" (origin +:+ "/api")),
        (dropLast_app (origin +:+ "/api") "/"), (endsWith_app "/api" origin).
      reflexivity.
Qed.

Lemma server_url_canonical_witness :
  normalizeBaseUrlFromHeader "https://docs.example.org/"
  = Done "https://docs.example.org/api"
  /\ normalizeBaseUrlFromHeader "https://docs.example.org/api/"
     = Done "https://docs.example.org/api".
Proof.
  destruct (server_url_canonical EmptyString "https://docs.example.org")
    as (_ & _ & H).
  destruct H as (_ & H1 & _ & H2);
    [reflexivity | discriminate | reflexivity | reflexivity |].
  split; [exact H1 | exact H2].
Defined.

(** ** The API key from the header *)

Lemma toLower_space c : toLower c = " "%char -> c = " "%char.
Proof. byteCases c; vm_compute; intros H; first [reflexivity | discriminate H]. Qed.

Lemma lastChar_some c r : lastChar (String c r) <> None.
Proof.
  revert c. induction r as [|b q IH]; intros c; [discriminate|].
  rewrite lastChar_cons. apply IH.
Qed.

Lemma lastChar_trimStart s :
  solid (lastChar s) = true -> lastChar s <> None ->
  lastChar (trimStart s) = lastChar s.
Proof.
  induction s as [|c r IH]; [reflexivity|]. intros Hs Hn.
  cbn [trimStart]. destruct (isSpace c) eqn:E; [|reflexivity].
  destruct r as [|b t].
  - simpl in Hs. rewrite E in Hs. discriminate Hs.
  - rewrite lastChar_cons in *. apply IH; assumption.
Qed.

Lemma trim_nonempty s :
  solid (lastChar s) = true -> lastChar s <> None -> trim s <> EmptyString.
Proof.
  intros Hs Hn. unfold trim.
  rewrite trimEnd_id by (rewrite lastChar_trimStart; assumption).
  intros E. apply Hn. rewrite <- (lastChar_trimStart s Hs Hn), E. reflexivity.
Qed.

Lemma extractApiKey_some authorization key :
  extractApiKey authorization = Some key ->
  key <> EmptyString /\ edgeFree key = true.
Proof.
  unfold extractApiKey. destruct authorization as [a|]; [|discriminate].
  destruct (a =? EmptyString); [discriminate|].
  pose proof (edgeFree_trim a) as He.
  destruct (trim a =? EmptyString) eqn:Hne; [discriminate|].
  apply String.eqb_neq in Hne. remember (trim a) as t eqn:Ht. clear Ht.
  destruct (isPrefix "bearer " (toLowerCase t)) eqn:Hp.
  - intros [= <-]. split; [|apply edgeFree_trim].
    unfold edgeFree in He. apply andb_prop in He as [_ Hl].
    destruct t as [|c1 [|c2 [|c3 [|c4 [|c5 [|c6 [|c7 r]]]]]]];
      unfold toLowerCase in Hp; cbn [isPrefix mapString] in Hp;
      rewrite ?andb_false_r in Hp; try discriminate Hp.
    assert (H7 : toLower c7 = " "%char).
    { repeat (apply andb_prop in Hp as [? Hp]).
      match goal with
      | H : (_ =? toLower c7)%char = true |- _ =>
          apply Ascii.eqb_eq in H; symmetry; exact H
      end. }
    apply toLower_space in H7. subst c7.
    destruct r as [|b q]; [vm_compute in Hl; discriminate Hl|].
    cbn [dropChars]. apply trim_nonempty; [exact Hl | apply lastChar_some].
  - intros [= <-]. split; [exact Hne | exact He].
Qed.

(** X15.  [extractApiKey] gives no key, or a key that is not empty and
    has no white space at its ends.  It undoes the header the clients
    build: for a key without white space at its ends, [Bearer] or
    [bearer], a space and the key give back the key; and a header that
    does not begin with that word is the key itself. *)
Theorem api_key_extracted authorization key :
  (forall found,
     extractApiKey authorization = Some found ->
     found <> EmptyString /\ trim found = found)
  /\ (key <> EmptyString ->
      edgeFree key = true ->
      extractApiKey (Some ("Bearer " +:+ key)) = Some key
      /\ extractApiKey (Some ("bearer " +:+ key)) = Some key
      /\ extractApiKey (Some ("  BEARER   " +:+ key +:+ " ")) = Some key
      /\ (isPrefix "bearer " (toLowerCase key) = false ->
          extractApiKey (Some key) = Some key)).
Proof.
  split.
  - intros found H. destruct (extractApiKey_some _ _ H) as [Hn He].
    split; [exact Hn | apply trim_id; exact He].
  - intros Hne He.
    pose proof He as He'. unfold edgeFree in He'.
    apply andb_prop in He' as [Hf Hl].
    assert (Hlast : lastChar key <> None)
      by (destruct key; [congruence | apply lastChar_some]).
    assert (Htrim : forall p : string,
      solid (firstChar (p +:+ key)) = true -> trim (p +:+ key) = p +:+ key).
    { intros p Hp. apply trim_id. unfold edgeFree. rewrite Hp.
      destruct key as [|c r]; [congruence|]. rewrite lastChar_app. exact Hl. }
    assert (Hkey : (key =? EmptyString) = false) by (apply eqb_empty_false; exact Hne).
    assert (Hcase : forall p : string,
      solid (firstChar (p +:+ key)) = true ->
      (p +:+ key =? EmptyString) = false ->
      isPrefix "bearer " (toLowerCase (p +:+ key)) = true ->
      dropChars 7 (p +:+ key) = key ->
      extractApiKey (Some (p +:+ key)) = Some key).
    { intros p H1 H2 H3 H4. unfold extractApiKey. cbv zeta.
      rewrite (Htrim p H1), H2, H3, H4, (trim_id _ He). reflexivity. }
    split; [|split; [|split]].
    + apply (Hcase "Bearer "); reflexivity.
    + apply (Hcase "bearer "); reflexivity.
    + assert (Hk : trimEnd (key +:+ " ") = key).
      { clear - Hl Hlast.
        induction key as [|c r IH]; [exfalso; apply Hlast; reflexivity|].
        change (String c r +:+ " ") with (String c (r +:+ " ")).
        rewrite trimEnd_cases. destruct r as [|b q].
        - simpl in *. apply negb_true_iff in Hl. rewrite Hl. reflexivity.
        - rewrite lastChar_cons in Hl. rewrite IH; [reflexivity | exact Hl |].
          apply lastChar_some. }
      assert (Hend : forall p : string, trimEnd (p +:+ key +:+ " ") = p +:+ key).
      { intros p. induction p as [|c r IH]; [exact Hk|].
        change (String c r +:+ key +:+ " ") with (String c (r +:+ key +:+ " ")).
        rewrite trimEnd_cases, IH.
        change (String c r +:+ key) with (String c (r +:+ key)).
        destruct (r +:+ key) as [|b q] eqn:E; [|reflexivity].
        exfalso. apply Hne. destruct r; [exact E | discriminate E]. }
      assert (E : trim ("  BEARER   " +:+ key +:+ " ") = "BEARER   " +:+ key).
      { unfold trim.
        change (trimStart ("  BEARER   " +:+ key +:+ " "))
          with ("BEARER   " +:+ key +:+ " ").
        apply Hend. }
      assert (Hs : trim ("  " +:+ key) = key).
      { unfold trim.
        assert (Hts : trimStart ("  " +:+ key) = trimStart key) by reflexivity.
        rewrite Hts, (trimStart_id _ Hf). apply trimEnd_id. exact Hl. }
      unfold extractApiKey. cbv zeta. rewrite E.
      assert (A1 : ("  BEARER   " +:+ key +:+ " " =? EmptyString) = false)
        by reflexivity.
      assert (A2 : ("BEARER   " +:+ key =? EmptyString) = false) by reflexivity.
      assert (A3 : isPrefix "bearer " (toLowerCase ("BEARER   " +:+ key)) = true)
        by reflexivity.
      assert (A4 : dropChars 7 ("BEARER   " +:+ key) = "  " +:+ key)
        by reflexivity.
      rewrite A1, A2, A3, A4, Hs. reflexivity.
    + intros Hp. unfold extractApiKey. cbv zeta.
      rewrite Hkey, (trim_id _ He), Hkey, Hp. reflexivity.
Qed.

Lemma api_key_extracted_witness :
  extractApiKey (Some "Bearer ol_api_0123") = Some "ol_api_0123"
  /\ extractApiKey (Some "ol_api_0123") = Some "ol_api_0123".
Proof.
  destruct (api_key_extracted None "ol_api_0123") as [_ H].
  destruct H as (H1 & _ & _ & H2); [discriminate | reflexivity |].
  split; [exact H1 | apply H2; reflexivity].
Defined.

(** ** Headers *)








Lemma normalizeHeaderValue_falsy value :
  headerTruthy value = false -> normalizeHeaderValue value = None.
Proof. unfold normalizeHeaderValue. intros ->. reflexivity. Qed.



(** ** The configuration of a call *)

(** X17.  A configuration that [resolveRequestConfig] returns has an API
    key that is not empty.  In stdio mode the key and the base URL are
    those of the environment and the headers play no part.  In any other
    mode the key is the one extracted from the Authorization header,
    without white space at its ends, and the key of the environment is
    never used; and a base URL taken from a non-empty X-Server-Url header
    ends in [/api]. *)
Theorem request_config_sources transportMode envBaseUrl envApiKey headers cfg :
  resolveRequestConfig transportMode envBaseUrl envApiKey headers = Done cfg ->
  apiKey cfg <> EmptyString
  /\ (transportMode = "stdio" ->
      envApiKey = Some (apiKey cfg)
      /\ baseUrl cfg = default DEFAULT_BASE_URL envBaseUrl
      /\ forall otherHeaders,
           resolveRequestConfig transportMode envBaseUrl envApiKey otherHeaders
           = Done cfg)
  /\ (transportMode <> "stdio" ->
      extractApiKey (getHeaderValue headers "authorization") = Some (apiKey cfg)
      /\ trim (apiKey cfg) = apiKey cfg
      /\ (forall otherKey,
            resolveRequestConfig transportMode envBaseUrl otherKey headers
            = Done cfg)
      /\ (absent (getHeaderValue headers "x-server-url") = false ->
          endsWith "/api" (baseUrl cfg) = true)
      /\ (absent (getHeaderValue headers "x-server-url") = true ->
          baseUrl cfg = default DEFAULT_BASE_URL envBaseUrl)).
Proof.
  unfold resolveRequestConfig.
  destruct (transportMode =? "stdio") eqn:Hmode.
  - apply String.eqb_eq in Hmode.
    destruct envApiKey as [key|]; [|discriminate].
    destruct (absent (Some key)) eqn:Hab; [discriminate|].
    intros [= <-]. simpl. split; [|split; [auto | congruence]].
    simpl in Hab. apply String.eqb_neq in Hab. exact Hab.
  - apply String.eqb_neq in Hmode.
    destruct (extractApiKey (getHeaderValue headers "authorization"))
      as [key|] eqn:Hkey; [|discriminate].
    destruct (extractApiKey_some _ _ Hkey) as [Hne He].
    simpl absent at 1. rewrite (eqb_empty_false _ Hne).
    intros Hcfg.
    assert (Hk : apiKey cfg = key).
    { destruct (getHeaderValue headers "x-server-url") as [u|];
        [destruct (absent (Some u));
         [|destruct (normalizeBaseUrlFromHeader u); [|discriminate]]|];
        injection Hcfg as <-; reflexivity. }
    split; [rewrite Hk; exact Hne|]. split; [congruence|]. intros _.
    rewrite Hk. split; [reflexivity|]. split; [apply trim_id; exact He|].
    split.
    { intros otherKey. simpl absent. rewrite (eqb_empty_false _ Hne).
      exact Hcfg. }
    split.
    + intros Hu.
      destruct (getHeaderValue headers "x-server-url") as [u|];
        [|discriminate Hu].
      rewrite Hu in Hcfg.
      destruct (normalizeBaseUrlFromHeader u) as [url|] eqn:Hurl;
        [|discriminate].
      injection Hcfg as <-. simpl.
      apply (normalizeBaseUrlFromHeader_done _ _ Hurl).
    + intros Hu.
      destruct (getHeaderValue headers "x-server-url") as [u|].
      * rewrite Hu in Hcfg. injection Hcfg as <-. reflexivity.
      * injection Hcfg as <-. reflexivity.
Qed.

Lemma request_config_sources_witness :
  extractApiKey
    (getHeaderValue
       [("Authorization", HeaderString "Bearer ol_api_0123");
        ("X-Server-Url", HeaderString "https://docs.example.org/")]
       "authorization")
  = Some "ol_api_0123"
  /\ endsWith "/api" "https://docs.example.org/api" = true.
Proof.
  destruct (request_config_sources "http" None (Some "unused")
              [("Authorization", HeaderString "Bearer ol_api_0123");
               ("X-Server-Url", HeaderString "https://docs.example.org/")]
              {| baseUrl := "https://docs.example.org/api";
                 apiKey := "ol_api_0123" |}) as (_ & _ & H).
  - vm_compute. reflexivity.
  - destruct H as (Hkey & _ & _ & Hurl & _); [discriminate|].
    split; [exact Hkey | apply Hurl; reflexivity].
Defined.
